(** * mandel.c: a multi-threaded Mandelbrot renderer

    A shallow embedding of [src/mandel/mandel.c]: the escape-time evaluator
    ([iterations_at_point], [iteration_to_color]), the per-thread renderer
    ([compute_image]) and the dispatch and join loops of [main].

    - C [double] is IEEE binary64, embedded as Rocq's primitive [float];
      the arithmetic is taken through the interface [DoubleOps], and what
      is proved for every instance of it holds for binary64.
    - C [int] is a [Z] in the 32-bit signed range; an operation whose result
      leaves the range, or a division by zero, is undefined behaviour and is
      reported as such ([Undefined]).
    - Loops are run with fuel; the theorems show how much fuel is enough.
    - Threads are the per-worker sequences of [bitmap_set] calls, run by a
      scheduler that may pick any worker at each step.
    - An index outside an array is undefined behaviour like any other;
      the loops of [main] are also run in flat memory, to list the
      indices they reach. *)

From Stdlib Require Import ZArith Floats Lia Ascii.
From stdpp Require Import base numbers list gmap fin_maps relations strings.

Local Open Scope Z_scope.

(** ** Outcomes of C computations *)

Inductive ub : Set :=
  | DivisionByZero
  | SignedOverflow
  | OutOfBounds
  | InvalidConversion.

Inductive outcome (A : Type) : Type :=
  | Value (a : A)
  | Undefined (u : ub)
  | OutOfFuel.

Arguments Value {A} a.
Arguments Undefined {A} u.
Arguments OutOfFuel {A}.

Global Instance outcome_ret : MRet outcome := @Value.
Global Instance outcome_bind : MBind outcome := λ A B f m,
  match m with
  | Value a => f a
  | Undefined u => Undefined u
  | OutOfFuel => OutOfFuel
  end.
Global Instance outcome_fmap : FMap outcome := λ A B f m,
  match m with
  | Value a => Value (f a)
  | Undefined u => Undefined u
  | OutOfFuel => OutOfFuel
  end.

Definition is_value {A} (m : outcome A) : bool :=
  match m with Value _ => true | _ => false end.

(** [while (cond) body], with fuel: one unit per evaluation of the guard. *)
Fixpoint while {S : Type} (cond : S → bool) (body : S → outcome S)
    (fuel : nat) (s : S) : outcome S :=
  match fuel with
  | O => OutOfFuel
  | Datatypes.S fuel' =>
      if cond s then s' ← body s; while cond body fuel' s' else Value s
  end.

(** [for (v = first; v < stop; v++)] visits these values, in this order. *)
Definition for_range (first stop : Z) : list Z := seqZ first (stop - first).

(** ** The C type int *)

Definition INT_MIN : Z := - 2 ^ 31.
Definition INT_MAX : Z := 2 ^ 31 - 1.

Definition in_int (z : Z) : bool := (INT_MIN <=? z) && (z <=? INT_MAX).

Definition int_result (z : Z) : outcome Z :=
  if in_int z then Value z else Undefined SignedOverflow.

Definition int_add (a b : Z) : outcome Z := int_result (a + b).
Definition int_sub (a b : Z) : outcome Z := int_result (a - b).
Definition int_mul (a b : Z) : outcome Z := int_result (a * b).

(** C division truncates towards zero. *)
Definition int_div (a b : Z) : outcome Z :=
  if b =? 0 then Undefined DivisionByZero else int_result (a ÷ b).

(** What a two's-complement machine leaves in a 32-bit register. *)
Definition wrap32 (z : Z) : Z := (z + 2 ^ 31) `mod` 2 ^ 32 - 2 ^ 31.

(** ** The C type double *)

Class DoubleOps (D : Type) := {
  d_add : D → D → D;
  d_sub : D → D → D;
  d_mul : D → D → D;
  d_div : D → D → D;
  d_leb : D → D → bool;
  d_ltb : D → D → bool;
  d_of_int : Z → D;
  d_to_int : D → outcome Z
}.

Declare Scope double_scope.
Delimit Scope double_scope with dbl.
Infix "+" := d_add : double_scope.
Infix "-" := d_sub : double_scope.
Infix "*" := d_mul : double_scope.
Infix "/" := d_div : double_scope.
Infix "<=?" := d_leb : double_scope.
Notation "a >? b" := (d_ltb b a) : double_scope.

(** int to double: exact for every 32-bit int. *)
Definition float_of_int (z : Z) : float :=
  if z <? 0 then PrimFloat.opp (PrimFloat.of_uint63 (Uint63.of_Z (- z)))
  else PrimFloat.of_uint63 (Uint63.of_Z z).

(** double to int: the fractional part is discarded; a value that does not
    fit, an infinity or a NaN is undefined behaviour. *)
Definition float_to_int (f : float) : outcome Z :=
  match Prim2SF f with
  | S754_zero _ => Value 0
  | S754_finite s m e =>
      let a := match e with
               | Z0 => Z.pos m
               | Z.pos p => Z.shiftl (Z.pos m) (Z.pos p)
               | Z.neg p => Z.shiftr (Z.pos m) (Z.pos p)
               end in
      let z := if s then - a else a in
      if in_int z then Value z else Undefined InvalidConversion
  | S754_infinity _ | S754_nan => Undefined InvalidConversion
  end.

Global Instance binary64 : DoubleOps float := {|
  d_add := PrimFloat.add;
  d_sub := PrimFloat.sub;
  d_mul := PrimFloat.mul;
  d_div := PrimFloat.div;
  d_leb := PrimFloat.leb;
  d_ltb := PrimFloat.ltb;
  d_of_int := float_of_int;
  d_to_int := float_to_int
|}.

(** ** Colours and the bitmap (bitmap.h) *)

(** Modelled from the spec: [MAKE_RGBA] of bitmap.h, which is not among the
    sources. The spec calls a colour a packed RGBA value and gives the
    evaluator's result as [(gray, gray, gray, 0)]; the record keeps the four
    channels as [MAKE_RGBA] receives them. *)
Record color : Set := MAKE_RGBA { red : Z; green : Z; blue : Z; alpha : Z }.

Global Instance color_eq_dec : EqDecision color.
Proof. solve_decision. Defined.

(** Modelled from the spec: [struct bitmap] of bitmap.h, a width x height
    grid of colour cells that accepts indexed writes. A cell that was never
    given a colour has no entry. *)
Record bitmap : Type := Bitmap {
  bitmap_width : Z;
  bitmap_height : Z;
  bitmap_data : gmap (Z * Z) color
}.

(** The cells [(i, j)] of rows [first <= j < stop], row by row, each row from
    column 0 to [width - 1]: the order of the two nested [for] loops. *)
Definition cells (width first stop : Z) : list (Z * Z) :=
  j ← for_range first stop; i ← for_range 0 width; [(i, j)].

(** Modelled from the spec: [bitmap_create], [bitmap_reset], [bitmap_set] and
    the read access of the canvas collaborator. *)
Definition bitmap_create (w h : Z) : bitmap := Bitmap w h ∅.

Definition bitmap_set (bm : bitmap) (i j : Z) (c : color) : bitmap :=
  Bitmap (bitmap_width bm) (bitmap_height bm) (<[(i, j) := c]> (bitmap_data bm)).

Definition bitmap_reset (bm : bitmap) (c : color) : bitmap :=
  foldl (λ b p, bitmap_set b p.1 p.2 c) bm
        (cells (bitmap_width bm) 0 (bitmap_height bm)).

Definition bitmap_get (bm : bitmap) (i j : Z) : option color :=
  bitmap_data bm !! (i, j).

(** A call [bitmap_set(bm, i, j, c)], as the cell and the colour. *)
Abbreviation write := ((Z * Z) * color)%type.

Definition bitmap_write (bm : bitmap) (w : write) : bitmap :=
  bitmap_set bm w.1.1 w.1.2 w.2.

(** What each thread has left to do: its calls of [bitmap_set], in its order. *)
Abbreviation pool := (list (list write)).

(** The machine that runs the threads: what they have left to do, the
    bitmap, and the calls of [bitmap_set] made so far. *)
Abbreviation machine := (pool * bitmap * list write)%type.

(** ** The escape-time evaluator *)

(** [iteration_to_color]: [int gray = 255*i/max; return MAKE_RGBA(gray,gray,gray,0);] *)
Definition iteration_to_color (i max : Z) : outcome color :=
  p ← int_mul 255 i;
  gray ← int_div p max;
  mret (MAKE_RGBA gray gray gray 0).

(** The two ends of the gray scale. *)
Definition black : color := MAKE_RGBA 0 0 0 0.
Definition white : color := MAKE_RGBA 255 255 255 0.

Section Evaluator.
Context {D : Type} `{DoubleOps D}.

(** The local variables [x], [y] and [iter] of [iterations_at_point]. *)
Record orbit : Type := Orbit { ox : D; oy : D; iter : Z }.

(** The guard [(x*x + y*y <= 4) && iter < max]. *)
Definition bounded (x y : D) : bool := (x * x + y * y <=? d_of_int 4)%dbl.

Definition escape_guard (max : Z) (s : orbit) : bool :=
  bounded (ox s) (oy s) && (iter s <? max).

(** The loop body: [xt = x*x - y*y + x0; yt = 2*x*y + y0; x = xt; y = yt; iter++]. *)
Definition escape_body (x0 y0 : D) (s : orbit) : orbit :=
  let x := ox s in
  let y := oy s in
  let xt := (x * x - y * y + x0)%dbl in
  let yt := (d_of_int 2 * x * y + y0)%dbl in
  Orbit xt yt (iter s + 1).

Definition escape_loop (fuel : nat) (x y : D) (max : Z) : outcome orbit :=
  let x0 := x in
  let y0 := y in
  while (escape_guard max) (λ s, Value (escape_body x0 y0 s)) fuel
        (Orbit x y 0).

(** The state after [k] passes through the loop body. *)
Definition orbit_at (x y : D) (k : nat) : orbit :=
  Nat.iter k (escape_body x y) (Orbit x y 0).

Definition iterations_at_point_fuel (fuel : nat) (x y : D) (max : Z)
    : outcome color :=
  s ← escape_loop fuel x y max;
  iteration_to_color (iter s) max.

(** The guard is evaluated at most [max + 1] times (see
    [iterations_at_point_fuel_enough]), so this much fuel is the function itself. *)
Definition iterations_at_point (x y : D) (max : Z) : outcome color :=
  iterations_at_point_fuel (S (Z.to_nat max)) x y max.

(** The evaluator as the specification words it: start from [z = 0], stop
    when [zx² + zy² > 4] or when the count reaches [max]. *)
Definition spec_escape_guard (max : Z) (s : orbit) : bool :=
  negb (ox s * ox s + oy s * oy s >? d_of_int 4)%dbl && (iter s <? max).

Definition spec_escape_count (fuel : nat) (x y : D) (max : Z) : outcome Z :=
  iter <$> while (spec_escape_guard max) (λ s, Value (escape_body x y s)) fuel
                 (Orbit (d_of_int 0) (d_of_int 0) 0).

Definition spec_iterations_at_point (fuel : nat) (x y : D) (max : Z)
    : outcome color :=
  n ← spec_escape_count fuel x y max;
  iteration_to_color n max.
End Evaluator.

Arguments orbit D : clear implicits.

(** ** The renderer: one band of rows per thread *)

Section Renderer.
Context {D : Type} `{DoubleOps D}.

(** [struct thread_args]. The field [bm] points to the one bitmap of the
    process; the bitmap is passed to and returned by the functions that the
    pointer is handed to. *)
Record thread_args : Type := ThreadArgs {
  xmin : D;
  xmax : D;
  ymin : D;
  ymax : D;
  max : D;
  threads : Z;
  tnumber : Z
}.

(** The plane coordinates of pixel column [i] and pixel row [j]:
    [x = xmin + i*(xmax - xmin)/width] and [y = ymin + j*(ymax - ymin)/height]. *)
Definition pixel_x (a : thread_args) (width i : Z) : D :=
  (xmin a + d_of_int i * (xmax a - xmin a) / d_of_int width)%dbl.

Definition pixel_y (a : thread_args) (height j : Z) : D :=
  (ymin a + d_of_int j * (ymax a - ymin a) / d_of_int height)%dbl.

(** The body of the inner loop, up to the call of [bitmap_set]: the [double]
    field [max] is converted to the [int] parameter of [iterations_at_point]. *)
Definition pixel_color (a : thread_args) (width height i j : Z) : outcome color :=
  let x := pixel_x a width i in
  let y := pixel_y a height j in
  m ← d_to_int (max a);
  iterations_at_point x y m.

(** [height = bitmap_height(bm) / threads], [start = height * (tnumber - 1)]
    and the bound [start + height] of the outer loop. *)
Record band : Set := Band { band_height : Z; band_start : Z; band_stop : Z }.

Definition band_of (a : thread_args) (bm_height : Z) : outcome band :=
  height ← int_div bm_height (threads a);
  t1 ← int_sub (tnumber a) 1;
  start ← int_mul height t1;
  stop ← int_add start height;
  mret (Band height start stop).

(** The calls of [bitmap_set] that [compute_image] makes, in order. The
    function reads the bitmap's dimensions and none of its cells. *)
Definition compute_image_writes (a : thread_args) (bm_width bm_height : Z)
    : outcome (list write) :=
  let width := bm_width in
  b ← band_of a bm_height;
  mapM (λ p, c ← pixel_color a width (band_height b) p.1 p.2; mret (p, c))
       (cells width (band_start b) (band_stop b)).

(** [compute_image], run alone on the bitmap. *)
Definition compute_image (a : thread_args) (bm : bitmap) : outcome bitmap :=
  ws ← compute_image_writes a (bitmap_width bm) (bitmap_height bm);
  mret (foldl bitmap_write bm ws).

(** ** main *)

(** The configuration variables of [main] once the options are read; [max]
    and [threads] carry the specification's names for them. *)
Record RenderConfig : Type := {
  xcenter : D;
  ycenter : D;
  scale : D;
  image_width : Z;
  image_height : Z;
  max_iterations : Z;
  thread_count : Z
}.

(** [yscale = scale / threads] and the shifted centre [ycenter = ycenter - yscale]. *)
Definition yscale (cfg : RenderConfig) : D :=
  (scale cfg / d_of_int (thread_count cfg))%dbl.

Definition ycenter' (cfg : RenderConfig) : D := (ycenter cfg - yscale cfg)%dbl.

(** The assignments to [args[activeThreads]] (lines 123 to 130). *)
Definition worker_args (cfg : RenderConfig) (activeThreads : Z) : thread_args := {|
  xmin := (xcenter cfg - scale cfg)%dbl;
  xmax := (xcenter cfg + scale cfg)%dbl;
  ymin := (ycenter' cfg - yscale cfg)%dbl;
  ymax := (ycenter' cfg + yscale cfg)%dbl;
  max := d_of_int (max_iterations cfg);
  threads := thread_count cfg;
  tnumber := activeThreads
|}.

(** The bitmap after [bitmap_create] and [bitmap_reset(bm, MAKE_RGBA(0,0,255,0))]. *)
Definition sentinel : color := MAKE_RGBA 0 0 255 0.

Definition fresh_bitmap (cfg : RenderConfig) : bitmap :=
  bitmap_reset (bitmap_create (image_width cfg) (image_height cfg)) sentinel.
End Renderer.

Arguments thread_args D : clear implicits.
Arguments RenderConfig D : clear implicits.

(** *** The arrays [args] and [tid] *)

(** A C array of [array_len] elements. C does not check an index: under
    [Flat] an access at any index reaches the memory at that offset, as the
    compiled program does; under [Checked] an access outside
    [0 <= i < array_len] is reported as the undefined behaviour it is. *)
Inductive memory_model : Set := Checked | Flat.

Record array (V : Type) : Type := Array {
  array_len : Z;
  array_slots : gmap Z V
}.
Arguments Array {V} _ _.
Arguments array_len {V} _.
Arguments array_slots {V} _.

Definition in_bounds {V} (a : array V) (i : Z) : bool :=
  (0 <=? i) && (i <? array_len a).

Definition array_store {V} (mm : memory_model) (a : array V) (i : Z) (v : V)
    : outcome (array V) :=
  match mm with
  | Checked =>
      if in_bounds a i then Value (Array (array_len a) (<[i := v]> (array_slots a)))
      else Undefined OutOfBounds
  | Flat => Value (Array (array_len a) (<[i := v]> (array_slots a)))
  end.

Definition array_load {V} (mm : memory_model) (a : array V) (i : Z) : outcome V :=
  match mm, in_bounds a i with
  | Checked, false => Undefined OutOfBounds
  | _, _ => default (Undefined OutOfBounds) (Value <$> array_slots a !! i)
  end.

Inductive access : Set :=
  | Args (i : Z)
  | Tid (i : Z).

Section Main.
Context {D : Type} `{DoubleOps D}.

(** The variables of [main] that the two loops use, the threads created so
    far (each by the index of its [args] slot) and the thread ids joined so
    far, and the array accesses made. A thread id is the number of the worker. *)
Record main_state : Type := MainState {
  activeThreads : Z;
  args : array (thread_args D);
  tid : array Z;
  created : list Z;
  joined : list Z;
  accesses : list access
}.

Definition main_init (cfg : RenderConfig D) : main_state :=
  MainState 0 (Array (thread_count cfg) ∅) (Array (thread_count cfg) ∅) [] [] [].

(** [while(activeThreads < threads) { activeThreads++; args[activeThreads] = ...;
    pthread_create(&tid[activeThreads], &attr, compute_image, &args[activeThreads]); }]
    where [pthread_create] succeeds. *)
Definition dispatch_guard (cfg : RenderConfig D) (s : main_state) : bool :=
  activeThreads s <? thread_count cfg.

Definition dispatch_body (mm : memory_model) (cfg : RenderConfig D)
    (s : main_state) : outcome main_state :=
  n ← int_add (activeThreads s) 1;
  args' ← array_store mm (args s) n (worker_args cfg n);
  tid' ← array_store mm (tid s) n n;
  mret (MainState n args' tid' (created s ++ [n]) (joined s)
                  (accesses s ++ [Args n; Tid n])).

(** [while(activeThreads > 0) { pthread_join(tid[activeThreads], NULL); activeThreads--; }] *)
Definition join_guard (s : main_state) : bool := 0 <? activeThreads s.

Definition join_body (mm : memory_model) (s : main_state) : outcome main_state :=
  t ← array_load mm (tid s) (activeThreads s);
  n ← int_sub (activeThreads s) 1;
  mret (MainState n (args s) (tid s) (created s) (joined s ++ [t])
                  (accesses s ++ [Tid (activeThreads s)])).

Definition dispatch (mm : memory_model) (fuel : nat) (cfg : RenderConfig D)
    : outcome main_state :=
  while (dispatch_guard cfg) (dispatch_body mm cfg) fuel (main_init cfg).

Definition join (mm : memory_model) (fuel : nat) (s : main_state)
    : outcome main_state :=
  while join_guard (join_body mm) fuel s.

(** The slots [1 .. k] of an array, slot [i] holding [f i]. *)
Definition slots_upto {V} (f : Z → V) (k : Z) : gmap Z V :=
  foldr (λ i m, <[i := f i]> m) ∅ (seqZ 1 k).

(** The state after [k] passes through the dispatch loop, and the state of
    the join loop when [activeThreads] has come down to [k]. *)
Definition dispatched (cfg : RenderConfig D) (k : Z) : main_state :=
  MainState k
    (Array (thread_count cfg) (slots_upto (worker_args cfg) k))
    (Array (thread_count cfg) (slots_upto id k))
    (seqZ 1 k) []
    (seqZ 1 k ≫= λ i, [Args i; Tid i]).

Definition joining (cfg : RenderConfig D) (n k : Z) : main_state :=
  MainState k
    (args (dispatched cfg n)) (tid (dispatched cfg n))
    (seqZ 1 n) (reverse (seqZ (k + 1) (n - k)))
    (accesses (dispatched cfg n) ++ (Tid <$> reverse (seqZ (k + 1) (n - k)))).

(** The first [k] passes through the body of the dispatch loop. *)
Definition dispatch_passes (mm : memory_model) (cfg : RenderConfig D) (k : nat)
    : outcome main_state :=
  Nat.iter k (λ m, m ≫= dispatch_body mm cfg) (Value (main_init cfg)).

(** Both loops of [main]; each evaluates its guard [threads + 1] times. *)
Definition main_loops (mm : memory_model) (cfg : RenderConfig D)
    : outcome main_state :=
  let fuel := S (Z.to_nat (thread_count cfg)) in
  s ← dispatch mm fuel cfg;
  join mm fuel s.

(** The argument records the created threads read through their pointers
    [&args[activeThreads]], in the order of creation. *)
Definition workers (mm : memory_model) (cfg : RenderConfig D)
    : outcome (list (thread_args D)) :=
  s ← dispatch mm (S (Z.to_nat (thread_count cfg))) cfg;
  mapM (array_load mm (args s)) (created s).

(** *** The threads and the scheduler *)

(** The work of threads that run [compute_image], one on each of the records
    [recs], on a bitmap of the given dimensions. *)
Definition worker_pool (recs : list (thread_args D)) (bm_width bm_height : Z)
    : outcome pool :=
  mapM (λ a, compute_image_writes a bm_width bm_height) recs.

(** The work of the threads that [main] creates. Each reads its record
    through the pointer [&args[activeThreads]] that [main] stored it through;
    an index outside the array is undefined behaviour, as any other. *)
Definition thread_pool (cfg : RenderConfig D) : outcome pool :=
  ws ← workers Checked cfg;
  worker_pool ws (image_width cfg) (image_height cfg).

(** One step of the machine: some thread that has a call left makes it. *)
Inductive sched_step : machine → machine → Prop :=
  | sched_write (before after : pool) (w : write) (ws : list write)
        (bm : bitmap) (log : list write) :
      sched_step (before ++ (w :: ws) :: after, bm, log)
                 (before ++ ws :: after, bitmap_write bm w, log ++ [w]).

Definition all_done (p : pool) : Prop := mjoin p = [].

(** [threads_run recs bm0 bm log]: threads that run [compute_image] on the
    records [recs] and the bitmap [bm0], scheduled in some way and each run to
    its end, leave the bitmap [bm] after the calls [log]. A thread that runs
    into undefined behaviour ends the process, and there is no such run. *)
Definition threads_run (recs : list (thread_args D)) (bm0 bm : bitmap)
    (log : list write) : Prop :=
  ∃ p p', worker_pool recs (bitmap_width bm0) (bitmap_height bm0) = Value p
        ∧ rtc sched_step (p, bm0, []) (p', bm, log)
        ∧ all_done p'.

(** [render_run cfg bm log]: the same for the threads of [main], on the
    bitmap that [main] created and reset; they are joined before
    [bitmap_save]. *)
Definition render_run (cfg : RenderConfig D) (bm : bitmap) (log : list write) : Prop :=
  ∃ p p', thread_pool cfg = Value p
        ∧ rtc sched_step (p, fresh_bitmap cfg, []) (p', bm, log)
        ∧ all_done p'.

(** A schedule names, step by step, the thread that runs next; a thread
    with nothing left to do is passed over. *)
Definition sched_pick (k : nat) (m : machine) : machine :=
  match m.1.1 !! k with
  | Some (w :: ws) => (<[k := ws]> m.1.1, bitmap_write m.1.2 w, m.2 ++ [w])
  | _ => m
  end.

Definition run_schedule (sched : list nat) (m : machine) : machine :=
  foldl (λ m k, sched_pick k m) m sched.

(** The schedule that runs the threads one after the other. *)
Definition threads_in_turn (recs : list (thread_args D)) (bm0 : bitmap)
    : outcome bitmap :=
  p ← worker_pool recs (bitmap_width bm0) (bitmap_height bm0);
  mret (foldl bitmap_write bm0 (mjoin p)).

(** Records numbered as the dispatch loop numbers them (lines 129 and 130):
    the [t]-th of [n] records has [threads = n] and [tnumber = t]. *)
Definition numbered (n : Z) (recs : list (thread_args D)) : Prop :=
  Forall2 (λ t a, threads a = n ∧ tnumber a = t) (seqZ 1 n) recs.

(** The records that the passes 1 to [threads] of the dispatch loop assign
    (lines 123 to 130), in this order. *)
Definition assigned_args (cfg : RenderConfig D) : list (thread_args D) :=
  worker_args cfg <$> seqZ 1 (thread_count cfg).
End Main.

Arguments main_state D : clear implicits.

(** ** The vertical sub-window of a worker, as the specification words it *)


(** ** Configurations and schedules to run the model on *)

(** [mandel -x 0 -y 0 -s 2 -W 2 -H 4 -m 20 -n 2] *)
Definition cfg_2_4 : RenderConfig float := {|
  xcenter := 0%float; ycenter := 0%float; scale := 2%float;
  image_width := 2; image_height := 4; max_iterations := 20; thread_count := 2
|}.

(** [mandel -x 0 -y 0 -s 2 -W 2 -H 10 -m 20 -n 3] *)
Definition cfg_3_10 : RenderConfig float := {|
  xcenter := 0%float; ycenter := 0%float; scale := 2%float;
  image_width := 2; image_height := 10; max_iterations := 20; thread_count := 3
|}.

(** Thread after thread, and the threads taking turns, last thread first. *)
Definition in_turn (threads calls : nat) : list nat :=
  k ← seq 0 threads; replicate calls k.

Definition taking_turns (threads calls : nat) : list nat :=
  _ ← seq 0 calls; reverse (seq 0 threads).

(** The threads of [compute_image] on the records that [main] assigns, run
    by a schedule on the bitmap that [main] created and reset. *)
Definition run_on (cfg : RenderConfig float) (sched : list nat) : machine :=
  match worker_pool (assigned_args cfg) (image_width cfg) (image_height cfg) with
  | Value p => run_schedule sched (p, fresh_bitmap cfg, [])
  | _ => ([], fresh_bitmap cfg, [])
  end.

(** ** The options of the command line *)

(** The letters of the option string ["x:y:s:W:H:m:o:n:h"], in the order of
    the [case] labels of the [switch]; [getopt] answers any other option,
    and an option that lacks its argument, with ['?'], for which the
    [switch] has no label. *)
Inductive option_letter : Set :=
  | Opt_x | Opt_y | Opt_s | Opt_W | Opt_H | Opt_m | Opt_o | Opt_n | Opt_h
  | Opt_unknown.

Global Instance option_letter_eq_dec : EqDecision option_letter.
Proof. solve_decision. Defined.

Definition letter_of (c : ascii) : option_letter :=
  if decide (c = "x"%char) then Opt_x
  else if decide (c = "y"%char) then Opt_y
  else if decide (c = "s"%char) then Opt_s
  else if decide (c = "W"%char) then Opt_W
  else if decide (c = "H"%char) then Opt_H
  else if decide (c = "m"%char) then Opt_m
  else if decide (c = "o"%char) then Opt_o
  else if decide (c = "n"%char) then Opt_n
  else if decide (c = "h"%char) then Opt_h
  else Opt_unknown.

Section Options.
Context {D : Type} `{DoubleOps D}.

(** [atof] and [atoi] of the C library. *)
Variable atof : string → D.
Variable atoi : string → Z.

(** The configuration variables of [main], with [outfile]. *)
Record locals : Type := Locals {
  outfile : string;
  config : RenderConfig D
}.

(** The initial values: [outfile = "mandel.bmp"], [xcenter = 0],
    [ycenter = 0], [scale = 4], [image_width = 500], [image_height = 500],
    [max = 1000], [threads = 1]. *)
Definition default_locals : locals := {|
  outfile := "mandel.bmp";
  config := {|
    xcenter := d_of_int 0; ycenter := d_of_int 0; scale := d_of_int 4;
    image_width := 500; image_height := 500;
    max_iterations := 1000; thread_count := 1
  |}
|}.

(** One pass through the [while] loop is over, or [exit] was called. *)
Inductive after_option : Type :=
  | Continue (l : locals)
  | Exit (status : Z).

(** The [switch]: the value [c] that [getopt] returned, with [optarg]. *)
Definition switch (c : ascii) (optarg : string) (l : locals) : after_option :=
  let cfg := config l in
  match letter_of c with
  | Opt_x => Continue (Locals (outfile l)
      {| xcenter := atof optarg; ycenter := ycenter cfg; scale := scale cfg;
         image_width := image_width cfg; image_height := image_height cfg;
         max_iterations := max_iterations cfg; thread_count := thread_count cfg |})
  | Opt_y => Continue (Locals (outfile l)
      {| xcenter := xcenter cfg; ycenter := atof optarg; scale := scale cfg;
         image_width := image_width cfg; image_height := image_height cfg;
         max_iterations := max_iterations cfg; thread_count := thread_count cfg |})
  | Opt_s => Continue (Locals (outfile l)
      {| xcenter := xcenter cfg; ycenter := ycenter cfg; scale := atof optarg;
         image_width := image_width cfg; image_height := image_height cfg;
         max_iterations := max_iterations cfg; thread_count := thread_count cfg |})
  | Opt_W => Continue (Locals (outfile l)
      {| xcenter := xcenter cfg; ycenter := ycenter cfg; scale := scale cfg;
         image_width := atoi optarg; image_height := image_height cfg;
         max_iterations := max_iterations cfg; thread_count := thread_count cfg |})
  | Opt_H => Continue (Locals (outfile l)
      {| xcenter := xcenter cfg; ycenter := ycenter cfg; scale := scale cfg;
         image_width := image_width cfg; image_height := atoi optarg;
         max_iterations := max_iterations cfg; thread_count := thread_count cfg |})
  | Opt_m => Continue (Locals (outfile l)
      {| xcenter := xcenter cfg; ycenter := ycenter cfg; scale := scale cfg;
         image_width := image_width cfg; image_height := image_height cfg;
         max_iterations := atoi optarg; thread_count := thread_count cfg |})
  | Opt_o => Continue (Locals optarg cfg)
  | Opt_n => Continue (Locals (outfile l)
      {| xcenter := xcenter cfg; ycenter := ycenter cfg; scale := scale cfg;
         image_width := image_width cfg; image_height := image_height cfg;
         max_iterations := max_iterations cfg; thread_count := atoi optarg |})
  | Opt_h => Exit 1
  | Opt_unknown => Continue l
  end.

(** The loop [while((c = getopt(...)) != -1) switch(c) ...], over the
    results of [getopt] in the order it returns them. *)
Fixpoint parse_options (opts : list (ascii * string)) (l : locals) : after_option :=
  match opts with
  | [] => Continue l
  | (c, optarg) :: rest =>
      match switch c optarg l with
      | Continue l' => parse_options rest l'
      | Exit status => Exit status
      end
  end.

(** The argument of the last option with the letter [o], if there is one. *)
Definition last_arg (o : option_letter) (opts : list (ascii * string))
    : option string :=
  snd <$> last (filter (λ ca, letter_of ca.1 = o) opts).
End Options.

Arguments locals D : clear implicits.
Arguments after_option D : clear implicits.

(** *** Further inputs to run the model on *)

(** [mandel -x 0 -y 0 -s 2 -W 2 -H 3 -m 20 -n 4]: more threads than rows. *)
Definition cfg_4_3 : RenderConfig float := {|
  xcenter := 0%float; ycenter := 0%float; scale := 2%float;
  image_width := 2; image_height := 3; max_iterations := 20; thread_count := 4
|}.

(** [mandel], with no option: the initial values of the variables. *)
Definition cfg_default : RenderConfig float := config default_locals.

(** Stand-ins for [atof] and [atoi] that tell arguments apart by their
    length, and a command line [-W aaa -x a -q -W aa -n aaaa] as [getopt]
    returns it. *)
Definition length_atoi (s : string) : Z := Z.of_nat (String.length s).
Definition length_atof (s : string) : float := float_of_int (length_atoi s).

Definition sample_options : list (ascii * string) :=
  [("W"%char, "aaa"); ("x"%char, "a"); ("?"%char, ""); ("W"%char, "aa");
   ("n"%char, "aaaa")]%string.

(** * Properties *)

(** ** The outcome monad and the loops *)

Lemma bind_value {A B} (f : A → outcome B) (m : outcome A) (b : B) :
  m ≫= f = Value b ↔ ∃ a, m = Value a ∧ f a = Value b.
Proof.
  destruct m as [a| |]; simpl; split.
  - intros Hf. by exists a.
  - by intros (a' & [= <-] & Hf).
  - done.
  - by intros (? & ? & _).
  - done.
  - by intros (? & ? & _).
Qed.

Lemma mapM_value {A B} (f : A → outcome B) (l : list A) (k : list B) :
  mapM f l = Value k ↔ Forall2 (λ a b, f a = Value b) l k.
Proof.
  revert k. induction l as [|a l IH]; intros k; simpl.
  - split.
    + intros [= <-]. constructor.
    + by inversion 1.
  - split.
    + intros (b & Hb & (k' & Hk' & [= <-])%bind_value)%bind_value.
      constructor; [done|]. by apply IH.
    + inversion 1 as [|? b ? k' Hb Hk']; subst.
      apply bind_value. exists b. split; [done|].
      apply bind_value. exists k'. split; [by apply IH|done].
Qed.

Lemma mapM_value_fmap {A B} (f : A → outcome B) (g : A → B) (l : list A) :
  (∀ a, a ∈ l → f a = Value (g a)) → mapM f l = Value (g <$> l).
Proof.
  intros Hf. apply mapM_value. induction l as [|a l IH]; simpl; constructor.
  - apply Hf. by left.
  - apply IH. intros b Hb. apply Hf. by right.
Qed.

(** More fuel never changes a result. *)
Lemma while_fuel_mono {S} (cond : S → bool) (body : S → outcome S)
    (fuel fuel' : nat) (s s' : S) :
  (fuel ≤ fuel')%nat →
  while cond body fuel s = Value s' → while cond body fuel' s = Value s'.
Proof.
  revert fuel' s. induction fuel as [|fuel IH]; intros fuel' s Hle; [done|].
  destruct fuel' as [|fuel']; [lia|]. simpl.
  destruct (cond s); [|done].
  intros (s1 & -> & Hrest)%bind_value. simpl.
  apply IH; [lia|done].
Qed.

(** A loop with a body that cannot fail stops as soon as the guard fails:
    its result is the body applied [k] times, the guard holding before each
    pass and failing after the last. *)
Lemma while_value_inv {S} (cond : S → bool) (f : S → S) (fuel : nat) (s s' : S) :
  while cond (λ s, Value (f s)) fuel s = Value s' →
  ∃ k : nat, s' = Nat.iter k f s
           ∧ (∀ j, (j < k)%nat → cond (Nat.iter j f s) = true)
           ∧ cond (Nat.iter k f s) = false
           ∧ (k < fuel)%nat.
Proof.
  revert s. induction fuel as [|fuel IH]; intros s; [done|]. simpl.
  destruct (cond s) eqn:Hc.
  - simpl. intros (k & -> & Hbefore & Hafter & Hk)%IH.
    exists (Datatypes.S k). rewrite !Nat.iter_succ_r. split_and!; [done| |done|lia].
    intros [|j] Hj; [done|]. rewrite Nat.iter_succ_r. apply Hbefore. lia.
  - intros [= <-]. exists 0%nat. split_and!; [done| |done|lia].
    intros j Hj. lia.
Qed.

(** A measure that every pass decreases bounds the fuel that is needed. *)
Lemma while_terminates {S} (cond : S → bool) (f : S → S) (μ : S → nat)
    (fuel : nat) (s : S) :
  (∀ s, cond s = true → (μ (f s) < μ s)%nat) →
  (μ s < fuel)%nat →
  ∃ s', while cond (λ s, Value (f s)) fuel s = Value s'.
Proof.
  intros Hdec. revert s. induction fuel as [|fuel IH]; intros s Hfuel; [lia|].
  simpl. destruct (cond s) eqn:Hc; [|by eexists].
  simpl. apply IH. specialize (Hdec s Hc). lia.
Qed.

(** ** The type int *)

Lemma int_result_value (z : Z) :
  INT_MIN ≤ z ≤ INT_MAX → int_result z = Value z.
Proof.
  intros Hz. unfold int_result, in_int.
  destruct (Z.leb_spec INT_MIN z), (Z.leb_spec z INT_MAX); simpl; done || lia.
Qed.

(** [int_value]: the next int operation of the goal stays within the range. *)
Ltac int_value :=
  rewrite int_result_value by (unfold INT_MIN, INT_MAX in *; first [lia | nia]);
  simpl.

Lemma int_result_inv (z r : Z) :
  int_result z = Value r → r = z ∧ INT_MIN ≤ z ≤ INT_MAX.
Proof.
  unfold int_result, in_int.
  destruct (Z.leb_spec INT_MIN z), (Z.leb_spec z INT_MAX); simpl; try done.
  by intros [= <-].
Qed.

Lemma int_div_inv (a b r : Z) :
  int_div a b = Value r → b ≠ 0 ∧ r = a ÷ b ∧ INT_MIN ≤ a ÷ b ≤ INT_MAX.
Proof.
  unfold int_div. destruct (Z.eqb_spec b 0); [done|].
  intros [-> ?]%int_result_inv. done.
Qed.

(** ** The escape-time evaluator *)

Section EvaluatorFacts.
Context {D : Type} `{DoubleOps D}.

Lemma iter_escape_body (x0 y0 : D) (s : orbit D) :
  iter (escape_body x0 y0 s) = iter s + 1.
Proof. done. Qed.

Lemma iter_iterated (x0 y0 : D) (k : nat) (s : orbit D) :
  iter (Nat.iter k (escape_body x0 y0) s) = iter s + Z.of_nat k.
Proof.
  induction k as [|k IH]; simpl; [lia|]. rewrite IH. lia.
Qed.

Lemma iter_orbit_at (x y : D) (k : nat) : iter (orbit_at x y k) = Z.of_nat k.
Proof. unfold orbit_at. by rewrite iter_iterated. Qed.

Lemma escape_guard_lt (max : Z) (s : orbit D) :
  escape_guard max s = true → iter s < max.
Proof. unfold escape_guard. intros [_ ?%Z.ltb_lt]%andb_true_iff. done. Qed.

Lemma escape_loop_terminates (fuel : nat) (x y : D) (max : Z) :
  (Z.to_nat max < fuel)%nat → ∃ s, escape_loop fuel x y max = Value s.
Proof.
  intros Hfuel. unfold escape_loop.
  apply while_terminates with (μ := λ s, Z.to_nat (max - iter s)).
  - intros s Hs%escape_guard_lt. rewrite iter_escape_body. lia.
  - simpl. by rewrite Z.sub_0_r.
Qed.

(** The loop is the search for the first index of the orbit of [c = x + iy],
    begun at [c] itself, at which the guard fails. *)
Lemma escape_loop_first_exit (fuel : nat) (x y : D) (max : Z) :
  (Z.to_nat max < fuel)%nat →
  ∃ n : nat,
    escape_loop fuel x y max = Value (orbit_at x y n)
    ∧ (∀ k, (k < n)%nat →
         bounded (ox (orbit_at x y k)) (oy (orbit_at x y k)) = true
         ∧ Z.of_nat k < max)
    ∧ (bounded (ox (orbit_at x y n)) (oy (orbit_at x y n)) = false
       ∨ max ≤ Z.of_nat n)
    ∧ Z.of_nat n ≤ Z.max 0 max.
Proof.
  intros Hfuel.
  destruct (escape_loop_terminates fuel x y max Hfuel) as [s Hs].
  destruct (while_value_inv _ _ _ _ _ Hs) as (n & -> & Hbefore & Hafter & _).
  fold (orbit_at x y n) in *.
  assert (Hk : ∀ k, (k < n)%nat →
    bounded (ox (orbit_at x y k)) (oy (orbit_at x y k)) = true ∧ Z.of_nat k < max).
  { intros k Hk. specialize (Hbefore k Hk). fold (orbit_at x y k) in Hbefore.
    pose proof (escape_guard_lt _ _ Hbefore) as Hlt.
    rewrite iter_orbit_at in Hlt.
    unfold escape_guard in Hbefore. apply andb_true_iff in Hbefore as [Hb _].
    done. }
  exists n. split_and!; [done|done| |].
  - unfold escape_guard in Hafter. rewrite iter_orbit_at in Hafter.
    apply andb_false_iff in Hafter as [Hb|Hlt%Z.ltb_ge]; [by left|by right].
  - destruct n as [|n]; [lia|]. destruct (Hk n) as [_ ?]; lia.
Qed.

Lemma iterations_at_point_fuel_enough (fuel : nat) (x y : D) (max : Z) :
  (Z.to_nat max < fuel)%nat →
  iterations_at_point_fuel fuel x y max = iterations_at_point x y max.
Proof.
  intros Hfuel. unfold iterations_at_point, iterations_at_point_fuel.
  destruct (escape_loop_terminates (S (Z.to_nat max)) x y max) as [s Hs]; [lia|].
  rewrite Hs. unfold escape_loop in *.
  by rewrite (while_fuel_mono _ _ (S (Z.to_nat max)) fuel _ s) by (lia || done).
Qed.

(** At a fixed point of the update that lies within the radius, the loop
    runs until the counter reaches [max]. *)
Lemma escape_loop_fixed_point (fuel : nat) (x y : D) (max : Z) :
  bounded x y = true →
  (x * x - y * y + x)%dbl = x →
  (d_of_int 2 * x * y + y)%dbl = y →
  (Z.to_nat max < fuel)%nat →
  escape_loop fuel x y max = Value (Orbit x y (Z.max 0 max)).
Proof.
  intros Hb Hx Hy. unfold escape_loop.
  assert (Hgen : ∀ fuel i, (Z.to_nat (max - i) < fuel)%nat →
    while (escape_guard max) (λ s, Value (escape_body x y s)) fuel (Orbit x y i)
    = Value (Orbit x y (Z.max i max))).
  { clear fuel. induction fuel as [|fuel IH]; intros i Hfuel; [lia|].
    simpl. unfold escape_guard at 1. simpl. rewrite Hb. simpl.
    destruct (Z.ltb_spec i max).
    - assert (Hstep : escape_body x y (Orbit x y i) = Orbit x y (i + 1)).
      { unfold escape_body. simpl. by rewrite Hx, Hy. }
      simpl. rewrite Hstep, IH by lia. do 2 f_equal. lia.
    - do 2 f_equal. lia. }
  intros Hfuel. apply Hgen. by rewrite Z.sub_0_r.
Qed.

(** [gray] for a count between 0 and [max], as long as [255 * max] is an int. *)
Lemma iteration_to_color_range (i max : Z) :
  0 ≤ i ≤ max → 0 < max ≤ 8421504 →
  ∃ gray, iteration_to_color i max = Value (MAKE_RGBA gray gray gray 0)
        ∧ gray = 255 * i ÷ max ∧ 0 ≤ gray ≤ 255.
Proof.
  intros Hi Hmax. exists (255 * i ÷ max).
  assert (0 ≤ 255 * i ÷ max ≤ 255).
  { rewrite Z.quot_div_nonneg by lia. split.
    - apply Z.div_pos; lia.
    - apply Z.div_le_upper_bound; lia. }
  unfold iteration_to_color, int_mul, int_div.
  int_value.
  destruct (Z.eqb_spec max 0); [lia|].
  rewrite int_result_value by (unfold INT_MIN, INT_MAX; lia). done.
Qed.

Lemma iteration_to_color_zero (max : Z) :
  max ≠ 0 → iteration_to_color 0 max = Value (MAKE_RGBA 0 0 0 0).
Proof.
  intros Hmax. unfold iteration_to_color, int_mul, int_div. simpl.
  destruct (Z.eqb_spec max 0); [done|].
  by rewrite Z.quot_0_l by done.
Qed.
(** Away from [max = 0] and from the overflow of [255 * iter], the evaluator
    returns a gray between 0 and 255. *)
Lemma iterations_at_point_gray_range (x y : D) (max : Z) :
  max ≠ 0 → max ≤ 8421504 →
  ∃ gray, iterations_at_point x y max = Value (MAKE_RGBA gray gray gray 0)
        ∧ 0 ≤ gray ≤ 255.
Proof.
  intros Hne Hle. unfold iterations_at_point, iterations_at_point_fuel.
  destruct (escape_loop_first_exit (S (Z.to_nat max)) x y max)
    as (n & -> & _ & _ & Hn); [lia|].
  simpl. rewrite iter_orbit_at.
  destruct (Z.lt_ge_cases 0 max) as [Hpos|Hneg].
  - destruct (iteration_to_color_range (Z.of_nat n) max) as (g & -> & _ & Hg);
      [lia|lia|]. by exists g.
  - replace (Z.of_nat n) with 0 by lia.
    rewrite iteration_to_color_zero by done. exists 0. split; [done|lia].
Qed.

(** C2 (as amended). [iterations_at_point x y max] follows the orbit that
    starts at [z = c = x + iy] (not at [z = 0]) under the update
    [zx' = zx² − zy² + x], [zy' = 2·zx·zy + y]; it stops at the first index [n]
    at which the test [zx² + zy² <= 4] fails or at which [n] has reached
    [max], and it passes that [n], the number of completed passes, to
    [iteration_to_color]. *)
Theorem iterations_at_point_escape_time (x y : D) (max : Z) :
  orbit_at x y 0 = Orbit x y 0
  ∧ (∀ k, orbit_at x y (S k) =
          Orbit (ox (orbit_at x y k) * ox (orbit_at x y k)
                 - oy (orbit_at x y k) * oy (orbit_at x y k) + x)%dbl
                (d_of_int 2 * ox (orbit_at x y k) * oy (orbit_at x y k) + y)%dbl
                (Z.of_nat k + 1))
  ∧ ∃ n : nat,
      escape_loop (S (Z.to_nat max)) x y max = Value (orbit_at x y n)
      ∧ (∀ k, (k < n)%nat →
           (ox (orbit_at x y k) * ox (orbit_at x y k)
            + oy (orbit_at x y k) * oy (orbit_at x y k) <=? d_of_int 4)%dbl = true
           ∧ Z.of_nat k < max)
      ∧ ((ox (orbit_at x y n) * ox (orbit_at x y n)
          + oy (orbit_at x y n) * oy (orbit_at x y n) <=? d_of_int 4)%dbl = false
         ∨ max ≤ Z.of_nat n)
      ∧ Z.of_nat n ≤ Z.max 0 max
      ∧ iterations_at_point x y max = iteration_to_color (Z.of_nat n) max.
Proof.
  split; [done|]. split.
  - intros k. unfold orbit_at at 1. simpl. fold (orbit_at x y k).
    unfold escape_body. by rewrite iter_orbit_at.
  - destruct (escape_loop_first_exit (S (Z.to_nat max)) x y max)
      as (n & Hrun & Hbefore & Hafter & Hn); [lia|].
    exists n. split_and!; try done.
    unfold iterations_at_point, iterations_at_point_fuel.
    rewrite Hrun. simpl. by rewrite iter_orbit_at.
Qed.

(** C9. For [max >= 0] the loop of [iterations_at_point] stops after at most
    [max] passes, whatever the point: every pass adds one to [iter], the
    guard lets a pass begin only while [iter < max], and with fuel for
    [max + 1] evaluations of the guard the loop returns the state reached
    after some [n <= max] passes. *)
Theorem escape_loop_bounded (x y : D) (max : Z) (fuel : nat) :
  0 ≤ max → (Z.to_nat max < fuel)%nat →
  (∀ s, iter (escape_body x y s) = iter s + 1)
  ∧ (∀ s, escape_guard max s = true → iter s < max)
  ∧ ∃ n : nat,
      escape_loop fuel x y max = Value (Nat.iter n (escape_body x y) (Orbit x y 0))
      ∧ iter (Nat.iter n (escape_body x y) (Orbit x y 0)) = Z.of_nat n
      ∧ Z.of_nat n ≤ max.
Proof.
  intros Hmax Hfuel. split; [done|]. split; [apply escape_guard_lt|].
  destruct (escape_loop_first_exit fuel x y max Hfuel) as (n & Hrun & _ & _ & Hn).
  exists n. split_and!; [done| |lia].
  apply iter_orbit_at.
Qed.

(** With [max = 0] the loop is not entered and [255*0/0] divides by zero. *)
Lemma iterations_at_point_zero_cap (x y : D) :
  iterations_at_point x y 0 = Undefined DivisionByZero.
Proof.
  unfold iterations_at_point, iterations_at_point_fuel, escape_loop. simpl.
  unfold escape_guard. simpl. by rewrite andb_false_r.
Qed.

(** C4 (evaluation at the failing input). Called with [max = 0], at any
    point, [iterations_at_point] leaves the loop at once with [iter = 0] and
    [iteration_to_color] divides [255*0] by zero: no gray is returned. *)
Theorem iterations_at_point_max_zero (x y : D) :
  escape_loop 1 x y 0 = Value (Orbit x y 0)
  ∧ iteration_to_color 0 0 = Undefined DivisionByZero
  ∧ iterations_at_point x y 0 = Undefined DivisionByZero.
Proof.
  split_and!; [|done|apply iterations_at_point_zero_cap].
  unfold escape_loop. simpl. unfold escape_guard. simpl.
  by rewrite andb_false_r.
Qed.
End EvaluatorFacts.

(** *** The evaluator on binary64 *)

Lemma origin_is_fixed_point :
  bounded 0%float 0%float = true
  ∧ (0%float * 0%float - 0%float * 0%float + 0%float)%dbl = 0%float
  ∧ (d_of_int 2 * 0%float * 0%float + 0%float)%dbl = 0%float.
Proof. split_and!; reflexivity. Qed.

Lemma escape_loop_origin (fuel : nat) (max : Z) :
  (Z.to_nat max < fuel)%nat →
  escape_loop fuel 0%float 0%float max = Value (Orbit 0%float 0%float (Z.max 0 max)).
Proof.
  destruct origin_is_fixed_point as (Hb & Hx & Hy).
  by apply escape_loop_fixed_point.
Qed.

(** The origin never escapes: as long as [255 * max] is an int, its colour
    is the maximum gray. *)
Lemma iterations_at_point_origin (max : Z) :
  0 < max ≤ 8421504 →
  iterations_at_point 0%float 0%float max = Value white.
Proof.
  intros Hmax. unfold iterations_at_point, iterations_at_point_fuel.
  rewrite escape_loop_origin by lia. simpl.
  destruct (iteration_to_color_range (Z.max 0 max) max) as (g & -> & Hg & _);
    [lia|lia|].
  rewrite Hg. replace (Z.max 0 max) with max by lia.
  by rewrite Z.quot_mul by lia.
Qed.

(** C7 (evaluation at the failing input). At [max = 8421505] the loop runs
    to [iter = max] at the origin and [255 * iter] leaves the range of int. *)
Theorem iterations_at_point_origin_overflow :
  escape_loop (S (Z.to_nat 8421505)) 0%float 0%float 8421505
    = Value (Orbit 0%float 0%float 8421505)
  ∧ iterations_at_point 0%float 0%float 8421505 = Undefined SignedOverflow
  ∧ INT_MAX < 255 * 8421505
  ∧ wrap32 (255 * 8421505) ÷ 8421505 = -254.
Proof.
  split_and!.
  - by rewrite escape_loop_origin by lia.
  - unfold iterations_at_point, iterations_at_point_fuel.
    by rewrite escape_loop_origin by lia.
  - reflexivity.
  - reflexivity.
Qed.

(** C5 (evaluation at failing inputs). [gray] is not within [0, 255] for
    every [max]: with [max = 0] the division is by zero, and with
    [max = 10000000] at the origin [255 * iter] overflows, where a
    wrapping multiplication would give [gray = -174]. *)
Theorem iterations_at_point_gray_undefined :
  iterations_at_point 1%float 1%float 0 = Undefined DivisionByZero
  ∧ iterations_at_point 0%float 0%float 10000000 = Undefined SignedOverflow
  ∧ wrap32 (255 * 10000000) ÷ 10000000 = -174.
Proof.
  split_and!.
  - apply iterations_at_point_zero_cap.
  - unfold iterations_at_point, iterations_at_point_fuel.
    by rewrite escape_loop_origin by lia.
  - reflexivity.
Qed.

(** C2 (counterexample). At [c = 3 + 0i] with [max = 1] the code tests [c]
    first, finds [9 > 4] and returns gray 0 after no pass; the iteration
    that starts from [z = 0] makes one pass before that test and returns
    gray 255. *)
Lemma iterations_at_point_starts_at_c :
  escape_loop 2 3%float 0%float 1 = Value (Orbit 3%float 0%float 0)
  ∧ iterations_at_point 3%float 0%float 1 = Value black
  ∧ spec_escape_count 2 3%float 0%float 1 = Value 1
  ∧ spec_iterations_at_point 2 3%float 0%float 1 = Value white
  ∧ black ≠ white.
Proof. split_and!; [reflexivity..|done]. Qed.

Lemma escape_loop_bounded_witness :
  0 ≤ 50 ∧ (Z.to_nat 50 < 51)%nat
  ∧ (∀ s, iter (escape_body 0.25%float 0.5%float s) = iter s + 1)
  ∧ (∀ s : orbit float, escape_guard 50 s = true → iter s < 50)
  ∧ ∃ n : nat,
      escape_loop 51 0.25%float 0.5%float 50
        = Value (Nat.iter n (escape_body 0.25%float 0.5%float)
                          (Orbit 0.25%float 0.5%float 0))
      ∧ iter (Nat.iter n (escape_body 0.25%float 0.5%float)
                         (Orbit 0.25%float 0.5%float 0)) = Z.of_nat n
      ∧ Z.of_nat n ≤ 50.
Proof.
  split; [lia|]. split; [simpl; lia|].
  apply (escape_loop_bounded 0.25%float 0.5%float 50 51); [lia|simpl; lia].
Defined.

(** ** Rows, cells and bands *)

Lemma elem_of_for_range (first stop z : Z) :
  z ∈ for_range first stop ↔ first ≤ z < stop.
Proof. unfold for_range. rewrite elem_of_seqZ. lia. Qed.

Lemma NoDup_for_range (first stop : Z) : NoDup (for_range first stop).
Proof. apply NoDup_seqZ. Qed.

Lemma for_range_app (first mid stop : Z) :
  first ≤ mid ≤ stop →
  for_range first stop = for_range first mid ++ for_range mid stop.
Proof.
  intros Hm. unfold for_range.
  replace (stop - first) with ((mid - first) + (stop - mid)) by lia.
  rewrite seqZ_app by lia. do 2 f_equal; lia.
Qed.

Lemma for_range_empty (first stop : Z) : stop ≤ first → for_range first stop = [].
Proof. intros. apply seqZ_nil. lia. Qed.

Lemma elem_of_cells (width first stop i j : Z) :
  (i, j) ∈ cells width first stop ↔ 0 ≤ i < width ∧ first ≤ j < stop.
Proof.
  unfold cells. rewrite list_elem_of_bind. split.
  - intros (j' & (i' & Hin & Hi)%list_elem_of_bind & Hj).
    apply list_elem_of_singleton in Hin as [= -> ->].
    apply elem_of_for_range in Hi, Hj. done.
  - intros [Hi Hj]. exists j. split; [|by apply elem_of_for_range].
    apply list_elem_of_bind. exists i. split; [by apply list_elem_of_singleton|].
    by apply elem_of_for_range.
Qed.

Lemma NoDup_cells (width first stop : Z) : NoDup (cells width first stop).
Proof.
  unfold cells. apply NoDup_bind; [| |apply NoDup_for_range].
  - intros j1 j2 c _ _ (i1 & Hc1 & _)%list_elem_of_bind (i2 & Hc2 & _)%list_elem_of_bind.
    apply list_elem_of_singleton in Hc1, Hc2. congruence.
  - intros j _. apply NoDup_bind; [| |apply NoDup_for_range].
    + intros i1 i2 c _ _ Hc1%list_elem_of_singleton Hc2%list_elem_of_singleton.
      congruence.
    + intros i _. apply NoDup_singleton.
Qed.

Lemma cells_app (width first mid stop : Z) :
  first ≤ mid ≤ stop →
  cells width first stop = cells width first mid ++ cells width mid stop.
Proof.
  intros Hm. unfold cells. by rewrite (for_range_app first mid stop), bind_app.
Qed.

Lemma cells_empty (width first stop : Z) : stop ≤ first → cells width first stop = [].
Proof. intros Hle. unfold cells. by rewrite (for_range_empty first stop). Qed.

Section BandFacts.
Context {D : Type} `{DoubleOps D}.

Lemma band_of_inv (a : thread_args D) (bm_height : Z) (b : band) :
  band_of a bm_height = Value b →
  threads a ≠ 0
  ∧ band_height b = bm_height ÷ threads a
  ∧ band_start b = band_height b * (tnumber a - 1)
  ∧ band_stop b = band_start b + band_height b.
Proof.
  unfold band_of.
  intros (h & (Hn & -> & _)%int_div_inv & Hrest)%bind_value.
  apply bind_value in Hrest as (t1 & [-> _]%int_result_inv & Hrest).
  apply bind_value in Hrest as (start & [-> _]%int_result_inv & Hrest).
  apply bind_value in Hrest as (stop & [-> _]%int_result_inv & [= <-]).
  done.
Qed.

(** [band_of] is defined for every worker of a bitmap whose height is a
    non-negative int. *)
Lemma band_of_worker (a : thread_args D) (bm_height : Z) :
  1 ≤ tnumber a ≤ threads a → threads a ≤ INT_MAX → 0 ≤ bm_height ≤ INT_MAX →
  band_of a bm_height =
    Value (Band (bm_height ÷ threads a)
                (bm_height ÷ threads a * (tnumber a - 1))
                (bm_height ÷ threads a * tnumber a)).
Proof.
  intros Ht Hn Hh. unfold INT_MAX in Hn, Hh.
  assert (0 ≤ bm_height ÷ threads a ≤ bm_height).
  { rewrite Z.quot_div_nonneg by lia. split; [apply Z.div_pos; lia|].
    apply Z.div_le_upper_bound; nia. }
  assert (bm_height ÷ threads a * threads a ≤ bm_height).
  { rewrite Z.quot_div_nonneg by lia. rewrite Z.mul_comm.
    apply Z.mul_div_le. lia. }
  unfold band_of, int_div, int_sub, int_mul, int_add.
  destruct (Z.eqb_spec (threads a) 0); [lia|].
  int_value.
  int_value.
  int_value.
  int_value.
  do 2 f_equal. lia.
Qed.

(** The cells that [compute_image] writes are the cells of its band, in the
    order of the loops, each with the colour of its pixel. *)
Lemma compute_image_writes_inv (a : thread_args D) (bm_width bm_height : Z)
    (ws : list write) :
  compute_image_writes a bm_width bm_height = Value ws →
  ∃ b, band_of a bm_height = Value b
     ∧ ws.*1 = cells bm_width (band_start b) (band_stop b)
     ∧ Forall (λ w, pixel_color a bm_width (band_height b) w.1.1 w.1.2 = Value w.2) ws.
Proof.
  unfold compute_image_writes. intros (b & Hb & Hws)%bind_value.
  exists b. split; [done|]. apply mapM_value in Hws.
  induction Hws as [|p w ps ws Hw _ [IH1 IH2]]; [done|].
  apply bind_value in Hw as (c & Hc & [= <-]). simpl.
  split; [by f_equal|]. by constructor.
Qed.
End BandFacts.

(** Bands of equal height that start at multiples of that height share no
    cell, whatever the height. *)
Lemma NoDup_bands (width h : Z) (ts : list Z) :
  NoDup ts →
  NoDup (ts ≫= λ t, cells width (h * (t - 1)) (h * (t - 1) + h)).
Proof.
  intros Hts. apply NoDup_bind; [| |done].
  - intros t1 t2 [i j] _ _ [_ Hj1]%elem_of_cells [_ Hj2]%elem_of_cells. nia.
  - intros t _. apply NoDup_cells.
Qed.

Lemma bands_stack (width h : Z) (n : nat) :
  0 ≤ h →
  seqZ 1 (Z.of_nat n) ≫= (λ t, cells width (h * (t - 1)) (h * (t - 1) + h))
  = cells width 0 (h * Z.of_nat n).
Proof.
  intros Hh. induction n as [|n IH].
  - simpl. by rewrite cells_empty by lia.
  - rewrite seqZ_S, bind_app, IH, bind_singleton.
    rewrite (cells_app width 0 (h * Z.of_nat n) (h * Z.of_nat (S n))) by lia.
    do 2 f_equal; lia.
Qed.

(** ** The loops of main *)

Lemma lookup_slots_upto {V} (f : Z → V) (k i : Z) :
  slots_upto f k !! i = if decide (1 ≤ i ≤ k) then Some (f i) else None.
Proof.
  unfold slots_upto.
  assert (Hgen : ∀ l : list Z,
    foldr (λ i m, <[i := f i]> m) (∅ : gmap Z V) l !! i
    = if decide (i ∈ l) then Some (f i) else None).
  { induction l as [|j l IH].
    - cbn [foldr]. rewrite lookup_empty. case_decide as Hin; [|done].
      by apply not_elem_of_nil in Hin.
    - cbn [foldr]. destruct (decide (j = i)) as [->|Hne].
      + rewrite lookup_insert_eq. by rewrite decide_True by left.
      + rewrite lookup_insert_ne, IH by done.
        destruct (decide (i ∈ l)) as [Hin|Hin].
        * by rewrite decide_True by (by right).
        * rewrite decide_False; [done|]. intros [?|?]%elem_of_cons; done. }
  rewrite Hgen. destruct (decide (1 ≤ i ≤ k)) as [Hi|Hi].
  - rewrite decide_True; [done|]. apply elem_of_seqZ. lia.
  - rewrite decide_False; [done|]. rewrite elem_of_seqZ. lia.
Qed.

Lemma slots_upto_succ {V} (f : Z → V) (k : Z) :
  0 ≤ k → <[k + 1 := f (k + 1)]> (slots_upto f k) = slots_upto f (k + 1).
Proof.
  intros Hk. apply map_eq. intros i. rewrite !lookup_slots_upto.
  destruct (decide (k + 1 = i)) as [<-|Hne].
  - rewrite lookup_insert_eq. by rewrite decide_True by lia.
  - rewrite lookup_insert_ne, lookup_slots_upto by done.
    destruct (decide (1 ≤ i ≤ k)).
    + by rewrite decide_True by lia.
    + by rewrite decide_False by lia.
Qed.

Lemma seqZ_succ (m k : Z) : 0 ≤ k → seqZ m (k + 1) = seqZ m k ++ [m + k].
Proof. intros Hk. by rewrite seqZ_app by lia. Qed.

Section MainFacts.
Context {D : Type} `{DoubleOps D}.
Implicit Types cfg : RenderConfig D.

Lemma main_init_dispatched cfg : main_init cfg = dispatched cfg 0.
Proof. done. Qed.

Lemma dispatched_succ cfg (k : Z) :
  0 ≤ k →
  MainState (k + 1)
    (Array (thread_count cfg)
       (<[k + 1 := worker_args cfg (k + 1)]> (slots_upto (worker_args cfg) k)))
    (Array (thread_count cfg) (<[k + 1 := k + 1]> (slots_upto id k)))
    (seqZ 1 k ++ [k + 1]) []
    ((seqZ 1 k ≫= λ i, [Args i; Tid i]) ++ [Args (k + 1); Tid (k + 1)])
  = dispatched cfg (k + 1).
Proof.
  intros Hk. unfold dispatched.
  rewrite (slots_upto_succ (worker_args cfg)) by done.
  pose proof (slots_upto_succ id k Hk) as Hid. unfold id at 1 in Hid. rewrite Hid.
  rewrite (seqZ_succ 1 k), bind_app, bind_singleton by done.
  by rewrite (Z.add_comm 1 k).
Qed.

(** One pass through the dispatch loop. In flat memory it always succeeds;
    with checked bounds it succeeds as long as the index is below the length. *)
Lemma dispatch_body_flat cfg (k : Z) :
  0 ≤ k < INT_MAX →
  dispatch_body Flat cfg (dispatched cfg k) = Value (dispatched cfg (k + 1)).
Proof.
  intros Hk. unfold dispatch_body, int_add. simpl.
  int_value.
  by rewrite dispatched_succ by lia.
Qed.

Lemma dispatch_body_checked cfg (k : Z) :
  0 ≤ k < INT_MAX →
  dispatch_body Checked cfg (dispatched cfg k) =
    if bool_decide (k + 1 < thread_count cfg) then Value (dispatched cfg (k + 1))
    else Undefined OutOfBounds.
Proof.
  intros Hk. unfold dispatch_body, int_add. simpl.
  int_value.
  unfold in_bounds. simpl.
  destruct (Z.leb_spec 0 (k + 1)); [|lia]. simpl.
  case_bool_decide as Hlt.
  - destruct (Z.ltb_spec (k + 1) (thread_count cfg)); [|lia]. simpl.
    by rewrite dispatched_succ by lia.
  - destruct (Z.ltb_spec (k + 1) (thread_count cfg)); [lia|]. done.
Qed.

Lemma dispatch_flat_from cfg (fuel : nat) (k : Z) :
  0 ≤ k ≤ thread_count cfg → thread_count cfg ≤ INT_MAX →
  (Z.to_nat (thread_count cfg - k) < fuel)%nat →
  while (dispatch_guard cfg) (dispatch_body Flat cfg) fuel (dispatched cfg k)
  = Value (dispatched cfg (thread_count cfg)).
Proof.
  intros Hk Hn. revert k Hk.
  induction fuel as [|fuel IH]; intros k Hk Hfuel; [lia|].
  simpl. unfold dispatch_guard at 1. simpl.
  destruct (Z.ltb_spec k (thread_count cfg)).
  - rewrite dispatch_body_flat by lia. simpl. apply IH; lia.
  - by replace k with (thread_count cfg) by lia.
Qed.

Lemma dispatch_flat cfg (fuel : nat) :
  0 ≤ thread_count cfg ≤ INT_MAX →
  (Z.to_nat (thread_count cfg) < fuel)%nat →
  dispatch Flat fuel cfg = Value (dispatched cfg (thread_count cfg)).
Proof.
  intros Hn Hfuel. unfold dispatch. rewrite main_init_dispatched.
  apply dispatch_flat_from; [lia|lia|]. by rewrite Z.sub_0_r.
Qed.

Lemma dispatch_passes_checked cfg (k : nat) :
  Z.of_nat k < thread_count cfg → thread_count cfg ≤ INT_MAX →
  dispatch_passes Checked cfg k = Value (dispatched cfg (Z.of_nat k)).
Proof.
  intros Hk Hn. unfold dispatch_passes. induction k as [|k IH]; [done|].
  rewrite Nat.iter_succ, IH by lia. simpl.
  rewrite dispatch_body_checked by lia.
  rewrite bool_decide_eq_true_2 by lia. do 2 f_equal. lia.
Qed.

Lemma dispatch_checked_from cfg (fuel : nat) (k : Z) :
  0 ≤ k < thread_count cfg → thread_count cfg ≤ INT_MAX →
  (Z.to_nat (thread_count cfg - k) ≤ fuel)%nat →
  while (dispatch_guard cfg) (dispatch_body Checked cfg) fuel (dispatched cfg k)
  = Undefined OutOfBounds.
Proof.
  intros Hk Hn. revert k Hk.
  induction fuel as [|fuel IH]; intros k Hk Hfuel; [lia|].
  simpl. unfold dispatch_guard at 1. simpl.
  destruct (Z.ltb_spec k (thread_count cfg)); [|lia].
  rewrite dispatch_body_checked by lia.
  case_bool_decide; [|done]. simpl. apply IH; lia.
Qed.

(** The join loop, in flat memory. *)
Lemma joining_top cfg (n : Z) : joining cfg n n = dispatched cfg n.
Proof.
  unfold joining. rewrite Z.sub_diag. simpl. by rewrite app_nil_r.
Qed.

Lemma join_body_flat cfg (n k : Z) :
  1 ≤ k ≤ n → n ≤ INT_MAX →
  join_body Flat (joining cfg n k) = Value (joining cfg n (k - 1)).
Proof.
  intros Hk Hn. unfold join_body, array_load, int_sub. simpl.
  rewrite lookup_slots_upto, decide_True by lia. simpl.
  int_value.
  unfold joining. simpl.
  replace (k - 1 + 1) with k by lia.
  replace (n - (k - 1)) with ((n - k) + 1) by lia.
  rewrite (seqZ_cons k (n - k + 1)) by lia.
  replace (Z.succ k) with (k + 1) by lia.
  replace (Z.pred (n - k + 1)) with (n - k) by lia.
  rewrite reverse_cons, fmap_app, <- (assoc_L (++)). done.
Qed.

Lemma join_flat_from cfg (fuel : nat) (n k : Z) :
  0 ≤ k ≤ n → n ≤ INT_MAX → (Z.to_nat k < fuel)%nat →
  join Flat fuel (joining cfg n k) = Value (joining cfg n 0).
Proof.
  intros Hk Hn. revert k Hk. unfold join.
  induction fuel as [|fuel IH]; intros k Hk Hfuel; [lia|].
  simpl. unfold join_guard at 1. simpl.
  destruct (Z.ltb_spec 0 k).
  - rewrite join_body_flat by lia. simpl. apply IH; lia.
  - by replace k with 0 by lia.
Qed.

Lemma main_loops_flat cfg :
  0 ≤ thread_count cfg ≤ INT_MAX →
  main_loops Flat cfg = Value (joining cfg (thread_count cfg) 0).
Proof.
  intros Hn. unfold main_loops.
  rewrite dispatch_flat by lia. simpl.
  rewrite <- joining_top. apply join_flat_from; lia.
Qed.

Lemma main_loops_checked cfg :
  1 ≤ thread_count cfg ≤ INT_MAX →
  main_loops Checked cfg = Undefined OutOfBounds.
Proof.
  intros Hn. unfold main_loops, dispatch. rewrite main_init_dispatched.
  rewrite dispatch_checked_from; [done|lia|lia|lia].
Qed.

(** With the bounds checked, the dispatch loop of a render on one thread or
    more fails, and the threads of [main] have no run. *)
Lemma workers_checked cfg :
  1 ≤ thread_count cfg ≤ INT_MAX →
  workers Checked cfg = Undefined OutOfBounds.
Proof.
  intros Hn. unfold workers, dispatch. rewrite main_init_dispatched.
  rewrite dispatch_checked_from; [done|lia|lia|lia].
Qed.

Lemma thread_pool_out_of_bounds cfg :
  1 ≤ thread_count cfg ≤ INT_MAX →
  thread_pool cfg = Undefined OutOfBounds.
Proof. intros Hn. unfold thread_pool. by rewrite workers_checked. Qed.

Lemma render_run_none cfg (bm : bitmap) (log : list write) :
  1 ≤ thread_count cfg ≤ INT_MAX → ¬ render_run cfg bm log.
Proof.
  intros Hn (p & p' & Hp & _). by rewrite thread_pool_out_of_bounds in Hp.
Qed.
End MainFacts.

(** ** Writes to the bitmap *)

Lemma bitmap_get_write (bm : bitmap) (w : write) (i j : Z) :
  bitmap_get (bitmap_write bm w) i j =
    if decide (w.1 = (i, j)) then Some w.2 else bitmap_get bm i j.
Proof.
  destruct w as [[i' j'] c]. unfold bitmap_get, bitmap_write, bitmap_set. simpl.
  case_decide as Heq.
  - rewrite Heq. apply lookup_insert_eq.
  - by apply lookup_insert_ne.
Qed.

Lemma bitmap_write_comm (bm : bitmap) (w1 w2 : write) :
  w1.1 ≠ w2.1 →
  bitmap_write (bitmap_write bm w1) w2 = bitmap_write (bitmap_write bm w2) w1.
Proof.
  intros Hne. unfold bitmap_write, bitmap_set. simpl. f_equal.
  apply insert_insert_ne. by destruct w1 as [[??]?], w2 as [[??]?].
Qed.

Lemma foldl_bitmap_write_comm (bm : bitmap) (w : write) (ws : list write) :
  w.1 ∉ ws.*1 →
  foldl bitmap_write (bitmap_write bm w) ws
  = bitmap_write (foldl bitmap_write bm ws) w.
Proof.
  revert bm. induction ws as [|w' ws IH]; intros bm Hw; [done|].
  simpl in *. apply not_elem_of_cons in Hw as [Hne Hw].
  rewrite bitmap_write_comm by done. by apply IH.
Qed.

(** A cell that is not among the writes keeps its colour. *)
Lemma bitmap_get_foldl_other (bm : bitmap) (ws : list write) (i j : Z) :
  (i, j) ∉ ws.*1 →
  bitmap_get (foldl bitmap_write bm ws) i j = bitmap_get bm i j.
Proof.
  revert bm. induction ws as [|w ws IH]; intros bm Hc; [done|].
  simpl in *. apply not_elem_of_cons in Hc as [Hne Hc].
  rewrite IH, bitmap_get_write by done. by rewrite decide_False.
Qed.

(** A cell that is written once holds the colour written. *)
Lemma bitmap_get_foldl_written (bm : bitmap) (ws : list write) (i j : Z) (c : color) :
  NoDup ws.*1 → ((i, j), c) ∈ ws →
  bitmap_get (foldl bitmap_write bm ws) i j = Some c.
Proof.
  revert bm. induction ws as [|w ws IH]; intros bm Hnd Hin; [by inv Hin|].
  simpl in *. apply NoDup_cons in Hnd as [Hw Hnd].
  apply elem_of_cons in Hin as [<-|Hin].
  - rewrite bitmap_get_foldl_other by done.
    rewrite bitmap_get_write. by rewrite decide_True.
  - by apply IH.
Qed.

Lemma bitmap_get_reset (bm : bitmap) (c : color) (i j : Z) :
  0 ≤ i < bitmap_width bm → 0 ≤ j < bitmap_height bm →
  bitmap_get (bitmap_reset bm c) i j = Some c.
Proof.
  intros Hi Hj. unfold bitmap_reset.
  assert (Hin : (i, j) ∈ cells (bitmap_width bm) 0 (bitmap_height bm))
    by by apply elem_of_cells.
  revert Hin. generalize (cells (bitmap_width bm) 0 (bitmap_height bm)).
  intros l. revert bm Hi Hj. induction l as [|p l IH] using rev_ind; intros bm Hi Hj Hin.
  - by apply not_elem_of_nil in Hin.
  - rewrite foldl_app. simpl.
    change (bitmap_set ?b p.1 p.2 c) with (bitmap_write b (p, c)).
    rewrite bitmap_get_write. simpl. case_decide as Hp; [done|].
    apply elem_of_app in Hin as [Hin|Hin%list_elem_of_singleton]; [|done].
    by apply IH.
Qed.

(** ** The scheduler *)

(** What is left to do and what has been done are together the work the
    threads began with; writes to distinct cells can be made in any order. *)
Lemma sched_step_settles (m m' : machine) :
  sched_step m m' →
  NoDup (mjoin m.1.1).*1 →
  NoDup (mjoin m'.1.1).*1
  ∧ foldl bitmap_write m'.1.2 (mjoin m'.1.1) = foldl bitmap_write m.1.2 (mjoin m.1.1)
  ∧ m'.2 ++ mjoin m'.1.1 ≡ₚ m.2 ++ mjoin m.1.1.
Proof.
  intros [before after w ws bm log]. simpl.
  rewrite !join_app. simpl. rewrite !fmap_app, fmap_cons, fmap_app.
  intros Hnd.
  assert (Hw : w.1 ∉ (mjoin before).*1).
  { apply NoDup_app in Hnd as (_ & Hdis & _). intros Hin.
    apply (Hdis _ Hin). by left. }
  split_and!.
  - apply NoDup_app in Hnd as (Hb & Hdis & [_ Hrest]%NoDup_cons).
    apply NoDup_app. split_and!; [done| |done].
    intros c Hc Hin. apply (Hdis c Hc). by right.
  - rewrite !foldl_app. simpl. rewrite foldl_bitmap_write_comm by done.
    by rewrite foldl_app.
  - rewrite <- (assoc_L (++)). apply Permutation_app_head. simpl.
    by rewrite <- Permutation_middle.
Qed.

Lemma sched_run_settles (m m' : machine) :
  rtc sched_step m m' →
  NoDup (mjoin m.1.1).*1 →
  NoDup (mjoin m'.1.1).*1
  ∧ foldl bitmap_write m'.1.2 (mjoin m'.1.1) = foldl bitmap_write m.1.2 (mjoin m.1.1)
  ∧ m'.2 ++ mjoin m'.1.1 ≡ₚ m.2 ++ mjoin m.1.1.
Proof.
  induction 1 as [m|m1 m2 m3 Hstep _ IH]; intros Hnd; [done|].
  destruct (sched_step_settles _ _ Hstep Hnd) as (Hnd2 & Hbm2 & Hlog2).
  destruct (IH Hnd2) as (Hnd3 & Hbm3 & Hlog3).
  split_and!; [done|congruence|by etrans].
Qed.

(** A run that leaves nothing to do has made every write of the threads,
    and its bitmap is the one that the threads leave when run in turn. *)
Lemma sched_run_complete (p p' : pool) (bm0 bm : bitmap) (log : list write) :
  NoDup (mjoin p).*1 →
  rtc sched_step (p, bm0, []) (p', bm, log) → all_done p' →
  bm = foldl bitmap_write bm0 (mjoin p) ∧ log ≡ₚ mjoin p.
Proof.
  intros Hnd Hrun Hdone. unfold all_done in Hdone.
  destruct (sched_run_settles _ _ Hrun Hnd) as (_ & Hbm & Hlog).
  simpl in *. rewrite Hdone in Hbm, Hlog. simpl in *.
  by rewrite app_nil_r in Hlog.
Qed.

(** Every schedule is a run of the machine. *)
Lemma sched_pick_steps (k : nat) (m : machine) : rtc sched_step m (sched_pick k m).
Proof.
  destruct m as [[p bm] log]. unfold sched_pick. cbn [fst snd].
  destruct (p !! k) as [[|w ws]|] eqn:Hk; [done| |done].
  apply rtc_once.
  rewrite (insert_take_drop p k ws) by (by eapply lookup_lt_Some).
  rewrite <- (take_drop_middle p k (w :: ws) Hk) at 1.
  constructor.
Qed.

Lemma run_schedule_steps (sched : list nat) (m : machine) :
  rtc sched_step m (run_schedule sched m).
Proof.
  unfold run_schedule. revert m.
  induction sched as [|k sched IH]; intros m; [done|].
  simpl. etrans; [apply sched_pick_steps|apply IH].
Qed.

Lemma run_thread (before after : pool) (ws : list write) (bm : bitmap)
    (log : list write) :
  rtc sched_step (before ++ ws :: after, bm, log)
                 (before ++ [] :: after, foldl bitmap_write bm ws, log ++ ws).
Proof.
  revert bm log. induction ws as [|w ws IH]; intros bm log.
  - simpl. by rewrite app_nil_r.
  - eapply rtc_l; [constructor|]. simpl.
    replace (log ++ w :: ws) with ((log ++ [w]) ++ ws) by by rewrite <- (assoc_L (++)).
    apply IH.
Qed.

Lemma run_in_turn (finished p : pool) (bm : bitmap) (log : list write) :
  all_done finished →
  ∃ p', rtc sched_step (finished ++ p, bm, log)
                       (p', foldl bitmap_write bm (mjoin p), log ++ mjoin p)
      ∧ all_done p'.
Proof.
  revert finished bm log. induction p as [|ws p IH]; intros finished bm log Hdone.
  - exists finished. simpl. rewrite !app_nil_r. done.
  - destruct (IH (finished ++ [[]]) (foldl bitmap_write bm ws) (log ++ ws))
      as (p' & Hrun & Hdone').
    { unfold all_done in *. rewrite join_app, Hdone. done. }
    exists p'. split; [|done]. simpl. rewrite foldl_app, (assoc_L (++)).
    etrans; [apply run_thread|].
    by rewrite <- (assoc_L (++)) in Hrun.
Qed.

(** ** Threads that run compute_image *)

Lemma iteration_to_color_gray (i max : Z) (c : color) :
  iteration_to_color i max = Value c → ∃ gray, c = MAKE_RGBA gray gray gray 0.
Proof.
  unfold iteration_to_color.
  intros (p & _ & (g & _ & [= <-])%bind_value)%bind_value. by exists g.
Qed.

Lemma join_fmap_bands {A B} (f : A → B) (g : Z → list B) (ts : list Z)
    (p : list (list A)) :
  Forall2 (λ t ws, f <$> ws = g t) ts p → f <$> mjoin p = ts ≫= g.
Proof.
  induction 1 as [|t ws ts p Hws _ IH]; [done|].
  simpl. by rewrite fmap_app, Hws, IH.
Qed.

Lemma bitmap_reset_dims (bm : bitmap) (c : color) :
  bitmap_width (bitmap_reset bm c) = bitmap_width bm
  ∧ bitmap_height (bitmap_reset bm c) = bitmap_height bm.
Proof.
  unfold bitmap_reset. generalize (cells (bitmap_width bm) 0 (bitmap_height bm)).
  intros l. revert bm. induction l as [|p l IH]; intros bm; [done|].
  simpl. by destruct (IH (bitmap_set bm p.1 p.2 c)) as [-> ->].
Qed.

Section WorkerFacts.
Context {D : Type} `{DoubleOps D}.
Implicit Types cfg : RenderConfig D.
Implicit Types recs : list (thread_args D).

Lemma fresh_bitmap_dims cfg :
  bitmap_width (fresh_bitmap cfg) = image_width cfg
  ∧ bitmap_height (fresh_bitmap cfg) = image_height cfg.
Proof.
  unfold fresh_bitmap.
  by destruct (bitmap_reset_dims
                 (bitmap_create (image_width cfg) (image_height cfg)) sentinel)
    as [-> ->].
Qed.

Lemma pixel_color_gray (a : thread_args D) (width height i j : Z) (c : color) :
  pixel_color a width height i j = Value c → c ≠ sentinel.
Proof.
  unfold pixel_color, iterations_at_point, iterations_at_point_fuel.
  intros (m & _ & (s & _ & (g & ->)%iteration_to_color_gray)%bind_value)%bind_value.
  unfold sentinel. intros [= -> ?]. done.
Qed.

(** The records that [main] assigns are numbered. *)
Lemma assigned_args_numbered cfg : numbered (thread_count cfg) (assigned_args cfg).
Proof.
  unfold numbered, assigned_args. apply Forall2_fmap_r, Forall_Forall2_diag.
  by apply Forall_forall.
Qed.

Lemma worker_pool_inv recs (bw bh : Z) (p : pool) :
  worker_pool recs bw bh = Value p →
  Forall2 (λ a ws, compute_image_writes a bw bh = Value ws) recs p.
Proof. unfold worker_pool. by intros ?%mapM_value. Qed.

Lemma worker_pool_numbered (n : Z) recs (bw bh : Z) (p : pool) :
  numbered n recs → worker_pool recs bw bh = Value p →
  Forall2 (λ t ws, ∃ a, a ∈ recs ∧ threads a = n ∧ tnumber a = t
                      ∧ compute_image_writes a bw bh = Value ws)
    (seqZ 1 n) p.
Proof.
  intros Hnum Hp%worker_pool_inv. apply Forall2_same_length_lookup. split.
  - rewrite (Forall2_length _ _ _ Hnum). by apply Forall2_length in Hp.
  - intros k t ws Ht Hws.
    destruct (Forall2_lookup_l _ _ _ _ _ Hnum Ht) as (a & Ha & Hn & Hta).
    exists a. split_and!; [by eapply list_elem_of_lookup_2|done|done|].
    by apply (Forall2_lookup_lr _ _ _ _ _ _ Hp Ha Hws).
Qed.

(** Worker [t] writes the cells of the rows [h*(t-1) <= j < h*(t-1) + h],
    where [h] is the height of the bitmap divided by [threads]. *)
Lemma worker_pool_bands (n : Z) recs (bw bh : Z) (p : pool) :
  numbered n recs → worker_pool recs bw bh = Value p →
  Forall2 (λ t ws, ws.*1 = cells bw (bh ÷ n * (t - 1)) (bh ÷ n * (t - 1) + bh ÷ n))
    (seqZ 1 n) p.
Proof.
  intros Hnum Hp. eapply Forall2_impl; [by eapply worker_pool_numbered|].
  intros t ws (a & _ & Hn & Ht & Hws). simpl in Hws.
  apply compute_image_writes_inv in Hws
    as (b & (_ & Hh & Hs & He)%band_of_inv & Hcells & _).
  by rewrite Hcells, He, Hs, Hh, Hn, Ht.
Qed.

Lemma worker_pool_colors recs (bw bh : Z) (p : pool) (w : write) :
  worker_pool recs bw bh = Value p → w ∈ mjoin p → w.2 ≠ sentinel.
Proof.
  intros Hp%worker_pool_inv (ws & Hw & Hws)%list_elem_of_join.
  apply list_elem_of_lookup in Hws as [k Hk].
  destruct (Forall2_lookup_r _ _ _ _ _ Hp Hk) as (a & _ & Hc).
  apply compute_image_writes_inv in Hc as (b & _ & _ & Hcol).
  rewrite Forall_forall in Hcol. by eapply pixel_color_gray, Hcol.
Qed.

Lemma worker_pool_cells (n : Z) recs (bw bh : Z) (p : pool) :
  numbered n recs → worker_pool recs bw bh = Value p →
  (mjoin p).*1 =
    seqZ 1 n ≫= λ t, cells bw (bh ÷ n * (t - 1)) (bh ÷ n * (t - 1) + bh ÷ n).
Proof. intros Hnum Hp. by eapply join_fmap_bands, worker_pool_bands. Qed.

Lemma worker_pool_NoDup (n : Z) recs (bw bh : Z) (p : pool) :
  numbered n recs → worker_pool recs bw bh = Value p → NoDup (mjoin p).*1.
Proof.
  intros Hnum Hp. rewrite (worker_pool_cells n recs bw bh p Hnum Hp).
  apply NoDup_bands, NoDup_seqZ.
Qed.

(** The rows that are rendered: [0 <= j < h * threads]. *)
Lemma worker_pool_rows (n : Z) recs (bw bh : Z) (p : pool) (i j : Z) :
  1 ≤ n → 0 ≤ bh →
  numbered n recs → worker_pool recs bw bh = Value p →
  (i, j) ∈ (mjoin p).*1 ↔ 0 ≤ i < bw ∧ 0 ≤ j < bh ÷ n * n.
Proof.
  intros Hn Hh Hnum Hp. rewrite (worker_pool_cells n recs bw bh p Hnum Hp).
  rewrite <- (Z2Nat.id n) at 1 by lia.
  rewrite bands_stack.
  - rewrite elem_of_cells. by rewrite Z2Nat.id by lia.
  - rewrite Z.quot_div_nonneg by lia. apply Z.div_pos; lia.
Qed.

Lemma rendered_rows (n bh : Z) :
  1 ≤ n → 0 ≤ bh → bh ÷ n * n = bh - bh `mod` n.
Proof.
  intros Hn Hh. rewrite Z.quot_div_nonneg by lia.
  pose proof (Z.div_mod bh n ltac:(lia)). lia.
Qed.

(** Every run of numbered threads ends with the bitmap of the run in turn,
    after the writes of the pool in some order. *)
Lemma threads_run_inv (n : Z) recs (bm0 bm : bitmap) (log : list write) :
  numbered n recs → threads_run recs bm0 bm log →
  ∃ p, worker_pool recs (bitmap_width bm0) (bitmap_height bm0) = Value p
     ∧ bm = foldl bitmap_write bm0 (mjoin p)
     ∧ log ≡ₚ mjoin p
     ∧ NoDup log.*1.
Proof.
  intros Hnum (p & p' & Hp & Hrun & Hdone).
  pose proof (worker_pool_NoDup n recs _ _ p Hnum Hp) as Hnd.
  destruct (sched_run_complete p p' _ bm log Hnd Hrun Hdone) as [-> Hlog].
  exists p. split_and!; [done..|]. by rewrite Hlog.
Qed.

(** The same for a run on the bitmap that [main] created and reset. *)
Lemma fresh_run_inv cfg recs (bm : bitmap) (log : list write) :
  numbered (thread_count cfg) recs → threads_run recs (fresh_bitmap cfg) bm log →
  ∃ p, worker_pool recs (image_width cfg) (image_height cfg) = Value p
     ∧ bm = foldl bitmap_write (fresh_bitmap cfg) (mjoin p)
     ∧ log ≡ₚ mjoin p
     ∧ NoDup log.*1.
Proof.
  intros Hnum Hrun.
  destruct (threads_run_inv _ recs _ bm log Hnum Hrun) as (p & Hp & Hrest).
  destruct (fresh_bitmap_dims cfg) as [Hw Hh]. rewrite Hw, Hh in Hp.
  by exists p.
Qed.

Lemma threads_in_turn_run recs (bm0 bm : bitmap) :
  threads_in_turn recs bm0 = Value bm → ∃ log, threads_run recs bm0 bm log.
Proof.
  unfold threads_in_turn. intros (p & Hp & [= <-])%bind_value.
  destruct (run_in_turn [] p bm0 []) as (p' & Hrun & Hdone); [done|].
  exists (mjoin p), p, p'. done.
Qed.

Lemma run_schedule_run recs (sched : list nat) (p p' : pool) (bm0 bm : bitmap)
    (log : list write) :
  worker_pool recs (bitmap_width bm0) (bitmap_height bm0) = Value p →
  run_schedule sched (p, bm0, []) = (p', bm, log) →
  mjoin p' = [] →
  threads_run recs bm0 bm log.
Proof.
  intros Hp Hrun Hdone. exists p, p'. split_and!; [done| |done].
  rewrite <- Hrun. apply run_schedule_steps.
Qed.
End WorkerFacts.

(** ** The bands of the workers *)

Section BandClaims.
Context {D : Type} `{DoubleOps D}.
Implicit Types cfg : RenderConfig D.
Implicit Types recs : list (thread_args D).

(** C3 (as amended). Threads that run [compute_image] on records numbered
    as [main] numbers them, worker [t] of [n] with [threads = n] and
    [tnumber = t], on the bitmap that [main] created and reset: in every run
    each cell is written at most once and no cell is written by two workers.
    Worker [t] writes the cells of rows [h*(t-1) <= j < h*t],
    [h = image_height / n]; these bands are pairwise disjoint and together
    they are the rows [0 <= j < h*n], which are all the rows of the image
    exactly when [n] divides [image_height]. *)
Theorem worker_bands_disjoint cfg recs (bm : bitmap) (log : list write) :
  1 ≤ thread_count cfg → 0 ≤ image_height cfg →
  numbered (thread_count cfg) recs →
  threads_run recs (fresh_bitmap cfg) bm log →
  NoDup log.*1
  ∧ ∃ p, worker_pool recs (image_width cfg) (image_height cfg) = Value p
      ∧ log ≡ₚ mjoin p
      ∧ length p = Z.to_nat (thread_count cfg)
      ∧ (∀ t ws, 1 ≤ t ≤ thread_count cfg → p !! Z.to_nat (t - 1) = Some ws →
           ws.*1 = cells (image_width cfg)
                     (image_height cfg ÷ thread_count cfg * (t - 1))
                     (image_height cfg ÷ thread_count cfg * t))
      ∧ (∀ k1 k2 ws1 ws2 c,
           p !! k1 = Some ws1 → p !! k2 = Some ws2 →
           c ∈ ws1.*1 → c ∈ ws2.*1 → k1 = k2)
      ∧ (∀ i j, (i, j) ∈ log.*1 ↔
           0 ≤ i < image_width cfg
           ∧ 0 ≤ j < image_height cfg ÷ thread_count cfg * thread_count cfg)
      ∧ (image_height cfg ÷ thread_count cfg * thread_count cfg = image_height cfg
         ↔ image_height cfg `mod` thread_count cfg = 0)
      ∧ (0 < image_width cfg →
         (∀ i j, (i, j) ∈ log.*1 ↔
            0 ≤ i < image_width cfg ∧ 0 ≤ j < image_height cfg)
         ↔ image_height cfg `mod` thread_count cfg = 0).
Proof.
  intros Hn Hh Hnum Hrun.
  destruct (fresh_run_inv cfg recs bm log Hnum Hrun) as (p & Hp & _ & Hlog & Hnd).
  split; [done|]. exists p.
  pose proof (worker_pool_bands _ recs _ _ p Hnum Hp) as Hbands.
  pose proof (rendered_rows _ _ Hn Hh) as Hmul.
  pose proof (Z.mod_pos_bound (image_height cfg) (thread_count cfg) ltac:(lia)) as Hmod.
  assert (Hrows : ∀ i j, (i, j) ∈ log.*1 ↔
    0 ≤ i < image_width cfg
    ∧ 0 ≤ j < image_height cfg ÷ thread_count cfg * thread_count cfg).
  { intros i j. rewrite Hlog. by apply (worker_pool_rows _ recs). }
  split_and!; [done|done| | | |done| |].
  - rewrite <- (Forall2_length _ _ _ Hbands). apply length_seqZ.
  - intros t ws Ht Hws.
    destruct (Forall2_lookup_r _ _ _ _ _ Hbands Hws) as (t' & Ht' & ->).
    apply lookup_seqZ in Ht' as [-> _].
    replace (1 + Z.of_nat (Z.to_nat (t - 1))) with t by lia.
    f_equal. lia.
  - intros k1 k2 ws1 ws2 [i j] Hk1 Hk2 Hc1 Hc2.
    destruct (Forall2_lookup_r _ _ _ _ _ Hbands Hk1) as (t1 & Ht1 & Hb1).
    destruct (Forall2_lookup_r _ _ _ _ _ Hbands Hk2) as (t2 & Ht2 & Hb2).
    apply lookup_seqZ in Ht1 as [-> _]. apply lookup_seqZ in Ht2 as [-> _].
    rewrite Hb1 in Hc1. rewrite Hb2 in Hc2.
    apply elem_of_cells in Hc1 as [_ Hj1]. apply elem_of_cells in Hc2 as [_ Hj2].
    nia.
  - lia.
  - intros Hw. split.
    + intros Hall.
      destruct (decide (image_height cfg = 0)) as [Hz|Hz];
        [by rewrite Hz, Zmod_0_l|].
      assert (Hin : (0, image_height cfg - 1) ∈ log.*1) by (apply Hall; lia).
      apply Hrows in Hin. lia.
    + intros Hdiv i j. rewrite Hrows.
      replace (image_height cfg ÷ thread_count cfg * thread_count cfg)
        with (image_height cfg) by lia.
      done.
Qed.
End BandClaims.

(** *** Runs of the example configurations *)

Lemma run_on_runs (cfg : RenderConfig float) (sched : list nat) :
  is_value (worker_pool (assigned_args cfg) (image_width cfg) (image_height cfg))
    = true →
  mjoin (run_on cfg sched).1.1 = [] →
  threads_run (assigned_args cfg) (fresh_bitmap cfg)
    (run_on cfg sched).1.2 (run_on cfg sched).2.
Proof.
  unfold run_on.
  destruct (worker_pool (assigned_args cfg) (image_width cfg) (image_height cfg))
    as [p| |] eqn:Hp; [|done..].
  intros _ Hdone.
  destruct (run_schedule sched (p, fresh_bitmap cfg, [])) as [[p' bm] log] eqn:Hrun.
  eapply run_schedule_run; [|done..].
  by destruct (fresh_bitmap_dims cfg) as [-> ->].
Qed.

Lemma cfg_2_4_in_turn :
  threads_run (assigned_args cfg_2_4) (fresh_bitmap cfg_2_4)
    (run_on cfg_2_4 (in_turn 2 4)).1.2 (run_on cfg_2_4 (in_turn 2 4)).2.
Proof. apply run_on_runs; by vm_compute. Qed.

Lemma cfg_2_4_taking_turns :
  threads_run (assigned_args cfg_2_4) (fresh_bitmap cfg_2_4)
    (run_on cfg_2_4 (taking_turns 2 4)).1.2 (run_on cfg_2_4 (taking_turns 2 4)).2.
Proof. apply run_on_runs; by vm_compute. Qed.

Lemma cfg_3_10_taking_turns :
  threads_run (assigned_args cfg_3_10) (fresh_bitmap cfg_3_10)
    (run_on cfg_3_10 (taking_turns 3 6)).1.2 (run_on cfg_3_10 (taking_turns 3 6)).2.
Proof. apply run_on_runs; by vm_compute. Qed.

Lemma worker_bands_disjoint_witness :
  1 ≤ thread_count cfg_2_4 ∧ 0 ≤ image_height cfg_2_4
  ∧ numbered (thread_count cfg_2_4) (assigned_args cfg_2_4)
  ∧ threads_run (assigned_args cfg_2_4) (fresh_bitmap cfg_2_4)
      (run_on cfg_2_4 (taking_turns 2 4)).1.2 (run_on cfg_2_4 (taking_turns 2 4)).2
  ∧ NoDup (run_on cfg_2_4 (taking_turns 2 4)).2.*1.
Proof.
  assert (Hn : 1 ≤ thread_count cfg_2_4) by (vm_compute; discriminate).
  assert (Hh : 0 ≤ image_height cfg_2_4) by (vm_compute; discriminate).
  split; [exact Hn|]. split; [exact Hh|].
  split; [exact (assigned_args_numbered cfg_2_4)|].
  split; [exact cfg_2_4_taking_turns|].
  exact (proj1 (worker_bands_disjoint cfg_2_4 _ _ _ Hn Hh
                  (assigned_args_numbered cfg_2_4) cfg_2_4_taking_turns)).
Defined.

(** C3 (counterexample). With ten rows on three threads the bands do not
    cover the image: the cell [(0, 9)] lies in the image, no worker writes
    it, and it holds the colour of [bitmap_reset] after the run. *)
Lemma bands_leave_a_cell_unwritten :
  threads_run (assigned_args cfg_3_10) (fresh_bitmap cfg_3_10)
    (run_on cfg_3_10 (taking_turns 3 6)).1.2 (run_on cfg_3_10 (taking_turns 3 6)).2
  ∧ (0 ≤ 0 < image_width cfg_3_10) ∧ (0 ≤ 9 < image_height cfg_3_10)
  ∧ ((0, 9) ∉ (run_on cfg_3_10 (taking_turns 3 6)).2.*1)
  ∧ bitmap_get (run_on cfg_3_10 (taking_turns 3 6)).1.2 0 9 = Some sentinel.
Proof.
  split; [apply cfg_3_10_taking_turns|]. split; [by vm_compute|].
  split; [by vm_compute|]. split; [|by vm_compute].
  apply (bool_decide_eq_false_1 _). by vm_compute.
Qed.

(** ** The indices of [args] and [tid] *)

Section IndexClaims.
Context {D : Type} `{DoubleOps D}.
Implicit Types cfg : RenderConfig D.

Lemma elem_of_dispatch_accesses (n i : Z) :
  (Args i ∈ (seqZ 1 n ≫= λ i, [Args i; Tid i]) ↔ 1 ≤ i ≤ n)
  ∧ (Tid i ∈ (seqZ 1 n ≫= λ i, [Args i; Tid i]) ↔ 1 ≤ i ≤ n).
Proof.
  split; rewrite list_elem_of_bind; setoid_rewrite elem_of_seqZ; split.
  - intros (k & Hin & Hk). apply elem_of_cons in Hin as [[= ->]|Hin]; [lia|].
    by apply list_elem_of_singleton in Hin.
  - intros Hi. exists i. split; [by left|lia].
  - intros (k & Hin & Hk). apply elem_of_cons in Hin as [?|Hin]; [done|].
    apply list_elem_of_singleton in Hin as [= ->]. lia.
  - intros Hi. exists i. split; [by right; left|lia].
Qed.

Lemma elem_of_join_accesses (n i : Z) :
  (Args i ∉ Tid <$> reverse (seqZ 1 n))
  ∧ (Tid i ∈ Tid <$> reverse (seqZ 1 n) ↔ 1 ≤ i ≤ n).
Proof.
  split.
  - by intros (k & ? & _)%list_elem_of_fmap.
  - rewrite list_elem_of_fmap. setoid_rewrite elem_of_reverse.
    setoid_rewrite elem_of_seqZ. split.
    + intros (k & [= ->] & Hk). lia.
    + intros Hi. exists i. split; [done|lia].
Qed.

(** C8. For [n >= 1] threads the two loops of [main] index the arrays
    [args] and [tid], both of length [n], at 1, ..., [n] and then [tid] at
    [n], ..., 1: never at 0, and at [n], which is one past the last element.
    With the bounds checked, the passes for the workers 1 to [n - 1] go
    through and the pass for worker [n] fails at its first access. *)
Theorem main_indexes_one_past_the_end cfg :
  1 ≤ thread_count cfg ≤ INT_MAX →
  ∃ s, main_loops Flat cfg = Value s
     ∧ array_len (args s) = thread_count cfg
     ∧ array_len (tid s) = thread_count cfg
     ∧ accesses s =
         (seqZ 1 (thread_count cfg) ≫= λ i, [Args i; Tid i])
         ++ (Tid <$> reverse (seqZ 1 (thread_count cfg)))
     ∧ (∀ i, Args i ∈ accesses s ↔ 1 ≤ i ≤ thread_count cfg)
     ∧ (∀ i, Tid i ∈ accesses s ↔ 1 ≤ i ≤ thread_count cfg)
     ∧ in_bounds (args s) 0 = true
     ∧ in_bounds (args s) (thread_count cfg) = false
     ∧ in_bounds (tid s) (thread_count cfg) = false
     ∧ dispatch_passes Checked cfg (Z.to_nat (thread_count cfg - 1))
         = Value (dispatched cfg (thread_count cfg - 1))
     ∧ dispatch_body Checked cfg (dispatched cfg (thread_count cfg - 1))
         = Undefined OutOfBounds
     ∧ array_store Checked (args (dispatched cfg (thread_count cfg - 1)))
         (thread_count cfg) (worker_args cfg (thread_count cfg))
         = Undefined OutOfBounds
     ∧ main_loops Checked cfg = Undefined OutOfBounds.
Proof.
  intros Hn. exists (joining cfg (thread_count cfg) 0).
  assert (Hoob : ∀ V (slots : gmap Z V),
    in_bounds (Array (thread_count cfg) slots) (thread_count cfg) = false).
  { intros V slots. unfold in_bounds. simpl. rewrite Z.ltb_irrefl. apply andb_false_r. }
  split_and!.
  - apply main_loops_flat. lia.
  - done.
  - done.
  - simpl. by rewrite Z.sub_0_r.
  - intros i. simpl. rewrite Z.sub_0_r, elem_of_app.
    destruct (elem_of_dispatch_accesses (thread_count cfg) i) as [-> _].
    destruct (elem_of_join_accesses (thread_count cfg) i) as [Hno _]. tauto.
  - intros i. simpl. rewrite Z.sub_0_r, elem_of_app.
    destruct (elem_of_dispatch_accesses (thread_count cfg) i) as [_ ->].
    destruct (elem_of_join_accesses (thread_count cfg) i) as [_ ->]. tauto.
  - unfold in_bounds. simpl. destruct (Z.ltb_spec 0 (thread_count cfg)); [done|lia].
  - apply Hoob.
  - apply Hoob.
  - rewrite dispatch_passes_checked by lia. do 2 f_equal. lia.
  - rewrite dispatch_body_checked by lia. by rewrite bool_decide_eq_false_2 by lia.
  - unfold array_store. simpl. by rewrite Hoob.
  - by apply main_loops_checked.
Qed.
End IndexClaims.

Lemma main_indexes_one_past_the_end_witness :
  1 ≤ thread_count cfg_3_10 ≤ INT_MAX
  ∧ main_loops Flat cfg_3_10 = Value (joining cfg_3_10 3 0)
  ∧ accesses (joining cfg_3_10 3 0) =
      [Args 1; Tid 1; Args 2; Tid 2; Args 3; Tid 3; Tid 3; Tid 2; Tid 1]
  ∧ main_loops Checked cfg_3_10 = Undefined OutOfBounds
  ∧ ∃ s, main_loops Flat cfg_3_10 = Value s
       ∧ in_bounds (args s) (thread_count cfg_3_10) = false.
Proof.
  split; [by vm_compute|]. split; [by vm_compute|]. split; [by vm_compute|].
  split; [by vm_compute|].
  destruct (main_indexes_one_past_the_end cfg_3_10 ltac:(by vm_compute))
    as (s & Hs & _ & _ & _ & _ & _ & _ & Hoob & _).
  exists s. split; assumption.
Defined.

(** ** The render of main *)

Section RenderOfMain.
Context {D : Type} `{DoubleOps D}.
Implicit Types cfg : RenderConfig D.

(** C10. For every number of threads [n >= 1] the render of [main] has no
    run: the dispatch loop stores the record of worker [n] through
    [args[n]], outside the array of length [n], which is undefined
    behaviour. No canvas is produced, and so none that two runs could
    share. *)
Theorem render_undefined cfg :
  1 ≤ thread_count cfg ≤ INT_MAX →
  workers Checked cfg = Undefined OutOfBounds
  ∧ thread_pool cfg = Undefined OutOfBounds
  ∧ (∀ bm log, ¬ render_run cfg bm log).
Proof.
  intros Hn. split_and!.
  - by apply workers_checked.
  - by apply thread_pool_out_of_bounds.
  - intros bm log. by apply render_run_none.
Qed.

(** C6. With three threads, whatever the image, the passes of the dispatch
    loop for workers 1 and 2 go through; the pass for worker 3 stores its
    record through [args[3]], outside the array of length 3, which is
    undefined behaviour, and the render has no run: it does not complete. *)
Theorem three_threads_out_of_bounds cfg :
  thread_count cfg = 3 →
  dispatch_passes Checked cfg 2 = Value (dispatched cfg 2)
  ∧ created (dispatched cfg 2) = [1; 2]
  ∧ in_bounds (args (dispatched cfg 2)) 3 = false
  ∧ array_store Checked (args (dispatched cfg 2)) 3 (worker_args cfg 3)
    = Undefined OutOfBounds
  ∧ dispatch_body Checked cfg (dispatched cfg 2) = Undefined OutOfBounds
  ∧ thread_pool cfg = Undefined OutOfBounds
  ∧ (∀ bm log, ¬ render_run cfg bm log).
Proof.
  intros Hn.
  assert (Hn' : 1 ≤ thread_count cfg ≤ INT_MAX) by (rewrite Hn; done).
  assert (Hoob : in_bounds (args (dispatched cfg 2)) 3 = false).
  { unfold in_bounds. simpl. by rewrite Hn. }
  split_and!.
  - apply (dispatch_passes_checked cfg 2); rewrite Hn; done.
  - done.
  - done.
  - unfold array_store. by rewrite Hoob.
  - rewrite dispatch_body_checked by done.
    rewrite bool_decide_eq_false_2; [done|]. rewrite Hn. done.
  - by apply thread_pool_out_of_bounds.
  - intros bm log. by apply render_run_none.
Qed.
End RenderOfMain.

Lemma render_undefined_witness :
  1 ≤ thread_count cfg_default ≤ INT_MAX
  ∧ thread_pool cfg_default = Undefined OutOfBounds.
Proof.
  assert (Hn : 1 ≤ thread_count cfg_default ≤ INT_MAX)
    by (vm_compute; split; discriminate).
  split; [exact Hn|].
  exact (proj1 (proj2 (render_undefined cfg_default Hn))).
Defined.

Lemma three_threads_out_of_bounds_witness :
  thread_count cfg_3_10 = 3 ∧ image_height cfg_3_10 = 10
  ∧ thread_pool cfg_3_10 = Undefined OutOfBounds.
Proof.
  split; [reflexivity|]. split; [reflexivity|].
  destruct (three_threads_out_of_bounds cfg_3_10 eq_refl)
    as (_ & _ & _ & _ & _ & Hpool & _).
  exact Hpool.
Defined.

(** ** The vertical sub-window of a worker *)



(** ** Threads that run to their end *)

Lemma mapM_defined {A B} (f : A → outcome B) (l : list A) :
  (∀ a, a ∈ l → ∃ b, f a = Value b) → ∃ k, mapM f l = Value k.
Proof.
  induction l as [|a l IH]; intros Hf; [by exists []|].
  destruct (Hf a) as [b Hb]; [by left|].
  destruct IH as [k Hk]; [intros a' Ha'; apply Hf; by right|].
  exists (b :: k). simpl. rewrite Hb. simpl. by rewrite Hk.
Qed.

Section DefinedThreads.
Context {D : Type} `{DoubleOps D}.
Implicit Types cfg : RenderConfig D.
Implicit Types recs : list (thread_args D).

Lemma pixel_color_defined (a : thread_args D) (width height i j m : Z) :
  d_to_int (max a) = Value m → m ≠ 0 → m ≤ 8421504 →
  ∃ c, pixel_color a width height i j = Value c.
Proof.
  intros Hm Hne Hle. unfold pixel_color. rewrite Hm. simpl.
  destruct (iterations_at_point_gray_range
              (pixel_x a width i) (pixel_y a height j) m Hne Hle) as (g & -> & _).
  by eexists.
Qed.

Lemma compute_image_writes_defined (a : thread_args D) (bm_width bm_height m : Z) :
  1 ≤ tnumber a ≤ threads a → threads a ≤ INT_MAX → 0 ≤ bm_height ≤ INT_MAX →
  d_to_int (max a) = Value m → m ≠ 0 → m ≤ 8421504 →
  ∃ ws, compute_image_writes a bm_width bm_height = Value ws.
Proof.
  intros Ht Hn Hh Hm Hne Hle. unfold compute_image_writes.
  rewrite band_of_worker by done. simpl.
  apply mapM_defined. intros [i j] _. simpl.
  destruct (pixel_color_defined a bm_width (bm_height ÷ threads a) i j m)
    as [c ->]; [done..|].
  by eexists.
Qed.

Lemma worker_pool_defined (n : Z) recs (bw bh m : Z) :
  n ≤ INT_MAX → 0 ≤ bh ≤ INT_MAX →
  numbered n recs →
  Forall (λ a, d_to_int (max a) = Value m) recs → m ≠ 0 → m ≤ 8421504 →
  ∃ p, worker_pool recs bw bh = Value p.
Proof.
  intros Hn Hh Hnum Hmax Hne Hle. unfold worker_pool.
  apply mapM_defined. intros a Ha.
  pose proof Ha as [k Hk]%list_elem_of_lookup.
  destruct (Forall2_lookup_r _ _ _ _ _ Hnum Hk) as (t & Ht & Hthreads & Htn).
  apply lookup_seqZ in Ht as [-> Hlt].
  rewrite Forall_forall in Hmax.
  apply compute_image_writes_defined with (m := m); [lia|lia|done|by apply Hmax|done..].
Qed.

(** Threads numbered 1 to [n] whose iteration cap is an int other than 0
    and at most 8421504 meet no undefined behaviour, for every number of
    threads [n >= 1] and every size of the image: each band and each colour
    is defined, and the threads have a run, the one that takes them in
    turn. *)
Lemma threads_complete cfg recs (m : Z) :
  1 ≤ thread_count cfg ≤ INT_MAX → 0 ≤ image_height cfg ≤ INT_MAX →
  numbered (thread_count cfg) recs →
  Forall (λ a, d_to_int (max a) = Value m) recs → m ≠ 0 → m ≤ 8421504 →
  ∃ bm log, threads_run recs (fresh_bitmap cfg) bm log
          ∧ threads_in_turn recs (fresh_bitmap cfg) = Value bm.
Proof.
  intros Hn Hh Hnum Hmax Hne Hle.
  destruct (worker_pool_defined (thread_count cfg) recs
              (bitmap_width (fresh_bitmap cfg)) (image_height cfg) m)
    as [p Hp]; [lia|done..|].
  assert (Hturn : threads_in_turn recs (fresh_bitmap cfg)
                  = Value (foldl bitmap_write (fresh_bitmap cfg) (mjoin p))).
  { unfold threads_in_turn.
    rewrite (proj2 (fresh_bitmap_dims cfg)). by rewrite Hp. }
  destruct (threads_in_turn_run recs _ _ Hturn) as [log Hrun].
  by exists (foldl bitmap_write (fresh_bitmap cfg) (mjoin p)), log.
Qed.

(** Any two runs of numbered threads on the same bitmap, whatever the two
    schedules, make the same writes (the same cells with the same colours,
    in some order) and end with the same bitmap, which is the bitmap of
    the run that takes the threads in turn. *)
Lemma schedule_independence (n : Z) recs (bm0 bm1 bm2 : bitmap)
    (log1 log2 : list write) :
  numbered n recs →
  threads_run recs bm0 bm1 log1 → threads_run recs bm0 bm2 log2 →
  bm1 = bm2
  ∧ log1 ≡ₚ log2
  ∧ (∀ i j, (i, j) ∈ log1.*1 ↔ (i, j) ∈ log2.*1)
  ∧ threads_in_turn recs bm0 = Value bm1.
Proof.
  intros Hnum Hrun1 Hrun2.
  destruct (threads_run_inv n recs bm0 bm1 log1 Hnum Hrun1)
    as (p1 & Hp1 & -> & Hlog1 & _).
  destruct (threads_run_inv n recs bm0 bm2 log2 Hnum Hrun2)
    as (p2 & Hp2 & -> & Hlog2 & _).
  assert (p2 = p1) as -> by congruence.
  split_and!.
  - done.
  - by rewrite Hlog1, Hlog2.
  - intros i j. by rewrite Hlog1, Hlog2.
  - unfold threads_in_turn. by rewrite Hp1.
Qed.
End DefinedThreads.

Lemma threads_complete_witness :
  1 ≤ thread_count cfg_3_10 ≤ INT_MAX ∧ 0 ≤ image_height cfg_3_10 ≤ INT_MAX
  ∧ numbered (thread_count cfg_3_10) (assigned_args cfg_3_10)
  ∧ Forall (λ a, d_to_int (max a) = Value 20) (assigned_args cfg_3_10)
  ∧ ∃ bm log, threads_run (assigned_args cfg_3_10) (fresh_bitmap cfg_3_10) bm log
            ∧ threads_in_turn (assigned_args cfg_3_10) (fresh_bitmap cfg_3_10)
              = Value bm.
Proof.
  assert (Hn : 1 ≤ thread_count cfg_3_10 ≤ INT_MAX)
    by (vm_compute; split; discriminate).
  assert (Hh : 0 ≤ image_height cfg_3_10 ≤ INT_MAX)
    by (vm_compute; split; discriminate).
  assert (Hmax : Forall (λ a, d_to_int (max a) = Value 20) (assigned_args cfg_3_10))
    by (repeat constructor).
  assert (Hne : 20 ≠ 0) by discriminate.
  assert (Hle : 20 ≤ 8421504) by discriminate.
  split; [exact Hn|]. split; [exact Hh|].
  split; [exact (assigned_args_numbered cfg_3_10)|]. split; [exact Hmax|].
  exact (threads_complete cfg_3_10 _ 20 Hn Hh
           (assigned_args_numbered cfg_3_10) Hmax Hne Hle).
Defined.

Lemma schedule_independence_witness :
  numbered (thread_count cfg_2_4) (assigned_args cfg_2_4)
  ∧ threads_run (assigned_args cfg_2_4) (fresh_bitmap cfg_2_4)
      (run_on cfg_2_4 (in_turn 2 4)).1.2 (run_on cfg_2_4 (in_turn 2 4)).2
  ∧ threads_run (assigned_args cfg_2_4) (fresh_bitmap cfg_2_4)
      (run_on cfg_2_4 (taking_turns 2 4)).1.2 (run_on cfg_2_4 (taking_turns 2 4)).2
  ∧ (run_on cfg_2_4 (in_turn 2 4)).2 ≠ (run_on cfg_2_4 (taking_turns 2 4)).2
  ∧ (run_on cfg_2_4 (in_turn 2 4)).1.2 = (run_on cfg_2_4 (taking_turns 2 4)).1.2.
Proof.
  split; [exact (assigned_args_numbered cfg_2_4)|].
  split; [exact cfg_2_4_in_turn|].
  split; [exact cfg_2_4_taking_turns|].
  split; [by vm_compute|].
  exact (proj1 (schedule_independence _ _ _ _ _ _ _
                  (assigned_args_numbered cfg_2_4)
                  cfg_2_4_in_turn cfg_2_4_taking_turns)).
Defined.
(** For a cap that is not 0 and at most 8421504 the evaluator returns, at
    every point, a colour [(gray, gray, gray, 0)] with [0 <= gray <= 255]. *)
Lemma gray_within_byte_range {D} `{DoubleOps D} (x y : D) (max : Z) :
  max ≠ 0 → max ≤ 8421504 →
  ∃ gray, iterations_at_point x y max = Value (MAKE_RGBA gray gray gray 0)
        ∧ 0 ≤ gray ≤ 255.
Proof. apply iterations_at_point_gray_range. Qed.

Lemma gray_within_byte_range_witness :
  ∃ gray, iterations_at_point 0.25%float 0.5%float 1000
            = Value (MAKE_RGBA gray gray gray 0)
        ∧ 0 ≤ gray ≤ 255.
Proof.
  apply (gray_within_byte_range 0.25%float 0.5%float 1000); by vm_compute.
Defined.

Lemma iterations_at_point_origin_witness :
  iterations_at_point 0%float 0%float 1000 = Value white.
Proof. apply (iterations_at_point_origin 1000). lia. Defined.

(** ** The frame of one worker *)

Lemma bitmap_dims_foldl (bm : bitmap) (ws : list write) :
  bitmap_width (foldl bitmap_write bm ws) = bitmap_width bm
  ∧ bitmap_height (foldl bitmap_write bm ws) = bitmap_height bm.
Proof.
  revert bm. induction ws as [|w ws IH]; intros bm; [done|].
  simpl. by destruct (IH (bitmap_write bm w)) as [-> ->].
Qed.

(** [compute_image], run on a bitmap, leaves its dimensions and every cell
    outside the band of its worker as they were, and gives every cell of the
    band the colour of [iterations_at_point] at the point the cell maps to. *)
Lemma compute_image_frame {D} `{DoubleOps D} (a : thread_args D) (bm bm' : bitmap) :
  compute_image a bm = Value bm' →
  ∃ b, band_of a (bitmap_height bm) = Value b
     ∧ bitmap_width bm' = bitmap_width bm
     ∧ bitmap_height bm' = bitmap_height bm
     ∧ (∀ i j, ¬ (0 ≤ i < bitmap_width bm ∧ band_start b ≤ j < band_stop b) →
          bitmap_get bm' i j = bitmap_get bm i j)
     ∧ (∀ i j, 0 ≤ i < bitmap_width bm → band_start b ≤ j < band_stop b →
          ∃ c, pixel_color a (bitmap_width bm) (band_height b) i j = Value c
             ∧ bitmap_get bm' i j = Some c).
Proof.
  unfold compute_image. intros (ws & Hws & [= <-])%bind_value.
  apply compute_image_writes_inv in Hws as (b & Hb & Hcells & Hcol).
  exists b. destruct (bitmap_dims_foldl bm ws) as [Hw Hh].
  split_and!; [done..| |].
  - intros i j Hout. apply bitmap_get_foldl_other.
    rewrite Hcells, elem_of_cells. done.
  - intros i j Hi Hj.
    assert (Hin : (i, j) ∈ ws.*1) by (rewrite Hcells; by apply elem_of_cells).
    apply list_elem_of_fmap in Hin as ([c' c] & Hc' & Hw'). simpl in Hc'. subst c'.
    exists c. split.
    + rewrite Forall_forall in Hcol. apply (Hcol _ Hw').
    + apply bitmap_get_foldl_written; [|done].
      rewrite Hcells. apply NoDup_cells.
Qed.

Lemma compute_image_frame_witness :
  ∃ bm', compute_image (worker_args cfg_2_4 1) (fresh_bitmap cfg_2_4) = Value bm'
       ∧ bitmap_get bm' 1 3 = Some sentinel
       ∧ bitmap_get bm' 1 1 = Some white.
Proof.
  assert (Hi : 0 ≤ 1 < bitmap_width (fresh_bitmap cfg_2_4))
    by (vm_compute; split; [discriminate|reflexivity]).
  assert (Hj : band_start (Band 2 0 2) ≤ 1 < band_stop (Band 2 0 2))
    by (vm_compute; split; [discriminate|reflexivity]).
  assert (Hout3 : ¬ (0 ≤ 1 < bitmap_width (fresh_bitmap cfg_2_4)
                     ∧ band_start (Band 2 0 2) ≤ 3 < band_stop (Band 2 0 2)))
    by (vm_compute; intros [_ [_ ?]]; discriminate).
  assert (Hband : band_of (worker_args cfg_2_4 1) (bitmap_height (fresh_bitmap cfg_2_4))
                  = Value (Band 2 0 2)) by (vm_compute; reflexivity).
  assert (Hwhite : pixel_color (worker_args cfg_2_4 1)
                     (bitmap_width (fresh_bitmap cfg_2_4))
                     (band_height (Band 2 0 2)) 1 1 = Value white)
    by (vm_compute; reflexivity).
  assert (Hblue : bitmap_get (fresh_bitmap cfg_2_4) 1 3 = Some sentinel)
    by (vm_compute; reflexivity).
  assert (Hrun : compute_image (worker_args cfg_2_4 1) (fresh_bitmap cfg_2_4)
                 = Value (foldl bitmap_write (fresh_bitmap cfg_2_4)
                            [((0, 0), black); ((1, 0), MAKE_RGBA 12 12 12 0);
                             ((0, 1), black); ((1, 1), white)]))
    by (vm_compute; reflexivity).
  eexists. split; [exact Hrun|].
  destruct (compute_image_frame _ _ _ Hrun) as (b & Hb & _ & _ & Hout & Hin).
  rewrite Hband in Hb. injection Hb as <-.
  split.
  - rewrite (Hout 1 3 Hout3). exact Hblue.
  - destruct (Hin 1 1 Hi Hj) as (c & Hc & Hget).
    rewrite Hget. rewrite Hwhite in Hc. injection Hc as <-. reflexivity.
Defined.

(** * Further properties of the code *)

(** ** The evaluator: points that make no pass, caps, and white *)

Section EvaluatorEdges.
Context {D : Type} `{DoubleOps D}.

(** A point that fails the test [x*x + y*y <= 4] at once is black, for
    every cap other than 0: the loop makes no pass. *)
Lemma far_point_is_black (x y : D) (max : Z) :
  bounded x y = false → max ≠ 0 →
  escape_loop (S (Z.to_nat max)) x y max = Value (Orbit x y 0)
  ∧ iterations_at_point x y max = Value black.
Proof.
  intros Hfar Hmax.
  assert (Hloop : escape_loop (S (Z.to_nat max)) x y max = Value (Orbit x y 0)).
  { unfold escape_loop. simpl. unfold escape_guard. simpl. by rewrite Hfar. }
  split; [done|].
  unfold iterations_at_point, iterations_at_point_fuel. rewrite Hloop. simpl.
  by apply iteration_to_color_zero.
Qed.

(** With a negative cap the loop makes no pass either, and every point is
    black. *)
Lemma negative_cap_is_black (x y : D) (max : Z) :
  max < 0 →
  escape_loop (S (Z.to_nat max)) x y max = Value (Orbit x y 0)
  ∧ iterations_at_point x y max = Value black.
Proof.
  intros Hmax.
  assert (Hloop : escape_loop (S (Z.to_nat max)) x y max = Value (Orbit x y 0)).
  { unfold escape_loop. simpl. unfold escape_guard. simpl.
    destruct (Z.ltb_spec 0 max); [lia|]. by rewrite andb_false_r. }
  split; [done|].
  unfold iterations_at_point, iterations_at_point_fuel. rewrite Hloop. simpl.
  apply iteration_to_color_zero. lia.
Qed.

(** A pixel is white exactly when the orbit stays within the radius for all
    [max] passes (for a cap whose product with 255 is an int). *)
Lemma white_iff_never_escapes (x y : D) (max : Z) :
  0 < max ≤ 8421504 →
  iterations_at_point x y max = Value white ↔
  ∀ k : nat, Z.of_nat k < max →
    bounded (ox (orbit_at x y k)) (oy (orbit_at x y k)) = true.
Proof.
  intros Hmax.
  destruct (escape_loop_first_exit (S (Z.to_nat max)) x y max)
    as (n & Hrun & Hbefore & Hafter & Hn); [lia|].
  unfold iterations_at_point, iterations_at_point_fuel. rewrite Hrun. simpl.
  rewrite iter_orbit_at.
  destruct (iteration_to_color_range (Z.of_nat n) max) as (g & -> & Hg & _);
    [lia|lia|].
  assert (Hgray : g = 255 ↔ Z.of_nat n = max).
  { rewrite Hg, Z.quot_div_nonneg by lia. split.
    - intros Hdiv.
      destruct (decide (Z.of_nat n = max)) as [|Hne]; [done|exfalso].
      assert ((255 * Z.of_nat n) `div` max < 255); [|lia].
      apply Z.div_lt_upper_bound; lia.
    - intros Heq. rewrite Heq. apply Z.div_mul. lia. }
  split.
  - intros [= Hw]. apply Hgray in Hw. intros k Hk.
    apply Hbefore. lia.
  - intros Hall. unfold white. do 2 f_equal; apply Hgray;
      (destruct Hafter as [Hesc|?]; [|lia]);
      (destruct (decide (Z.of_nat n = max)) as [|Hne]; [done|]);
      rewrite Hall in Hesc by lia; done.
Qed.

(** Raising the cap continues the same orbit: the count under the smaller
    cap is the count under the larger cap, cut off at the smaller cap; a
    point that escapes under the smaller cap stops in the same state under
    the larger one. *)
Lemma cap_cuts_the_count (x y : D) (max1 max2 : Z) :
  0 ≤ max1 ≤ max2 →
  ∃ s1 s2,
    escape_loop (S (Z.to_nat max1)) x y max1 = Value s1
    ∧ escape_loop (S (Z.to_nat max2)) x y max2 = Value s2
    ∧ iter s1 = Z.min (iter s2) max1
    ∧ (iter s1 < max1 → s1 = s2).
Proof.
  intros Hmax.
  destruct (escape_loop_first_exit (S (Z.to_nat max1)) x y max1)
    as (n1 & Hrun1 & Hbefore1 & Hafter1 & Hn1); [lia|].
  destruct (escape_loop_first_exit (S (Z.to_nat max2)) x y max2)
    as (n2 & Hrun2 & Hbefore2 & Hafter2 & Hn2); [lia|].
  exists (orbit_at x y n1), (orbit_at x y n2).
  rewrite !iter_orbit_at.
  assert (Hcmp : (n1 < n2 ∧ Z.of_nat n1 = max1)%nat ∨ n1 = n2).
  { destruct (lt_eq_lt_dec n1 n2) as [[Hlt|Heq]|Hgt].
    - left. split; [done|]. destruct (Hbefore2 n1 Hlt) as [Hb _].
      destruct Hafter1 as [Hesc|?]; [congruence|lia].
    - by right.
    - exfalso. destruct (Hbefore1 n2 Hgt) as [Hb Hlt].
      destruct Hafter2 as [Hesc|?]; [congruence|lia]. }
  split_and!; [done|done| |].
  - destruct Hcmp as [[Hlt Heq]| ->]; lia.
  - intros Hesc. destruct Hcmp as [[Hlt Heq]| ->]; [lia|done].
Qed.
End EvaluatorEdges.

Lemma far_point_is_black_witness :
  bounded 3%float 0%float = false ∧ 20 ≠ 0
  ∧ escape_loop (S (Z.to_nat 20)) 3%float 0%float 20 = Value (Orbit 3%float 0%float 0)
  ∧ iterations_at_point 3%float 0%float 20 = Value black.
Proof.
  split; [reflexivity|]. split; [discriminate|].
  apply (far_point_is_black 3%float 0%float 20); [reflexivity|discriminate].
Defined.

Lemma negative_cap_is_black_witness :
  -5 < 0
  ∧ escape_loop (S (Z.to_nat (-5))) 0%float 0%float (-5)
    = Value (Orbit 0%float 0%float 0)
  ∧ iterations_at_point 0%float 0%float (-5) = Value black.
Proof.
  split; [reflexivity|].
  apply (negative_cap_is_black 0%float 0%float (-5)). reflexivity.
Defined.

Lemma white_iff_never_escapes_witness :
  0 < 20 ≤ 8421504
  ∧ (iterations_at_point 0%float 0%float 20 = Value white ↔
     ∀ k : nat, Z.of_nat k < 20 →
       bounded (ox (orbit_at 0%float 0%float k)) (oy (orbit_at 0%float 0%float k)) = true).
Proof.
  assert (Hmax : 0 < 20 ≤ 8421504) by lia.
  split; [exact Hmax|]. exact (white_iff_never_escapes 0%float 0%float 20 Hmax).
Defined.

Lemma cap_cuts_the_count_witness :
  0 ≤ 5 ≤ 20
  ∧ ∃ s1 s2,
      escape_loop (S (Z.to_nat 5)) 0.25%float 0.5%float 5 = Value s1
      ∧ escape_loop (S (Z.to_nat 20)) 0.25%float 0.5%float 20 = Value s2
      ∧ iter s1 = Z.min (iter s2) 5
      ∧ (iter s1 < 5 → s1 = s2).
Proof.
  assert (Hmax : 0 ≤ 5 ≤ 20) by lia.
  split; [exact Hmax|]. exact (cap_cuts_the_count 0.25%float 0.5%float 5 20 Hmax).
Defined.

(** ** The threads: what is left unrendered, the work of each thread, and
    the colour of each pixel *)

Lemma length_bind_const {A B} (f : A → list B) (l : list A) (c : nat) :
  (∀ a, length (f a) = c) → length (l ≫= f) = (length l * c)%nat.
Proof.
  intros Hf. induction l as [|a l IH]; [done|].
  rewrite bind_cons, length_app, Hf, IH. done.
Qed.

Lemma length_cells (width first stop : Z) :
  length (cells width first stop) = (Z.to_nat (stop - first) * Z.to_nat width)%nat.
Proof.
  unfold cells.
  rewrite (length_bind_const _ _ (Z.to_nat width)).
  - unfold for_range. by rewrite length_seqZ.
  - intros j. rewrite (length_bind_const _ _ 1%nat) by done.
    unfold for_range. rewrite length_seqZ, Z.sub_0_r. lia.
Qed.

Section ThreadEdges.
Context {D : Type} `{DoubleOps D}.
Implicit Types cfg : RenderConfig D.
Implicit Types recs : list (thread_args D).

(** For every number [n >= 1] of numbered threads and every height: after
    a run on the bitmap that [main] created and reset, the cells of the
    image that still hold the colour of [bitmap_reset] are those of the last
    [image_height mod n] rows. *)
Lemma unrendered_rows cfg recs (bm : bitmap) (log : list write) :
  1 ≤ thread_count cfg → 0 ≤ image_height cfg →
  numbered (thread_count cfg) recs →
  threads_run recs (fresh_bitmap cfg) bm log →
  (∀ i j, 0 ≤ i < image_width cfg → 0 ≤ j < image_height cfg →
     bitmap_get bm i j = Some sentinel ↔
     image_height cfg - image_height cfg `mod` thread_count cfg ≤ j)
  ∧ image_height cfg ÷ thread_count cfg * thread_count cfg
    = image_height cfg - image_height cfg `mod` thread_count cfg.
Proof.
  intros Hn Hh Hnum Hrun.
  destruct (fresh_run_inv cfg recs bm log Hnum Hrun) as (p & Hp & -> & Hlog & Hnd).
  pose proof (rendered_rows _ _ Hn Hh) as Hrows.
  split; [|done]. intros i j Hi Hj. rewrite <- Hrows.
  destruct (decide (image_height cfg ÷ thread_count cfg * thread_count cfg ≤ j))
    as [Hout|Hin].
  - split; [done|]. intros _. rewrite bitmap_get_foldl_other.
    + apply bitmap_get_reset; simpl; lia.
    + rewrite (worker_pool_rows (thread_count cfg) recs (image_width cfg) (image_height cfg) p i j) by done. lia.
  - split; [|done]. intros Hget. exfalso.
    assert (Hcell : (i, j) ∈ (mjoin p).*1).
    { apply (worker_pool_rows (thread_count cfg) recs (image_width cfg) (image_height cfg) p i j); [done..|]. lia. }
    apply list_elem_of_fmap in Hcell as ([c' c] & Hc' & Hw). simpl in Hc'. subst c'.
    rewrite (bitmap_get_foldl_written _ _ i j c) in Hget.
    + injection Hget as ->.
      by apply (worker_pool_colors recs _ _ p _ Hp Hw).
    + by rewrite <- Hlog.
    + done.
Qed.

(** With more numbered threads than rows the band of every thread has
    height 0 and is empty: no thread writes a cell and the bitmap is left as
    [bitmap_reset] filled it. *)
Lemma more_threads_than_rows cfg recs (bm : bitmap) (log : list write) :
  0 ≤ image_height cfg < thread_count cfg →
  numbered (thread_count cfg) recs →
  threads_run recs (fresh_bitmap cfg) bm log →
  Forall (λ a, band_of a (image_height cfg) = Value (Band 0 0 0)) recs
  ∧ log = [] ∧ bm = fresh_bitmap cfg.
Proof.
  intros Hh Hnum Hrun.
  destruct (fresh_run_inv cfg recs bm log Hnum Hrun) as (p & Hp & -> & Hlog & _).
  assert (Hnone : mjoin p = []).
  { apply fmap_nil_inv with (f := fst).
    destruct (mjoin p).*1 as [|[i j] l] eqn:Hcells; [done|exfalso].
    assert (Hin : (i, j) ∈ (mjoin p).*1) by (rewrite Hcells; by left).
    apply (worker_pool_rows (thread_count cfg) recs (image_width cfg) (image_height cfg) p i j) in Hin; [|lia|lia|done|done].
    rewrite Z.quot_small in Hin by lia. lia. }
  rewrite Hnone in Hlog |- *. split_and!; [|by apply Permutation_nil_r|done].
  apply Forall_forall. intros a [k Hk]%list_elem_of_lookup.
  destruct (Forall2_lookup_r _ _ _ _ _ Hnum Hk) as (t & _ & Hthreads & _).
  apply worker_pool_inv in Hp.
  destruct (Forall2_lookup_l _ _ _ _ _ Hp Hk) as (ws & _ & Hws).
  apply compute_image_writes_inv in Hws as (b & Hb & _).
  rewrite Hb. f_equal.
  apply band_of_inv in Hb as (_ & Hheight & Hstart & Hstop).
  rewrite Hthreads, Z.quot_small in Hheight by lia.
  destruct b as [bh bs be]. simpl in *. f_equal; lia.
Qed.

(** Every thread makes the same number of calls of [bitmap_set],
    [image_width * (image_height / threads)], and a run makes [threads]
    times as many. *)
Lemma equal_work cfg recs (bm : bitmap) (log : list write) :
  numbered (thread_count cfg) recs →
  threads_run recs (fresh_bitmap cfg) bm log →
  ∃ p, worker_pool recs (image_width cfg) (image_height cfg) = Value p
     ∧ length p = Z.to_nat (thread_count cfg)
     ∧ Forall (λ ws, length ws
                     = (Z.to_nat (image_height cfg ÷ thread_count cfg)
                        * Z.to_nat (image_width cfg))%nat) p
     ∧ length log
       = (Z.to_nat (thread_count cfg)
          * (Z.to_nat (image_height cfg ÷ thread_count cfg)
             * Z.to_nat (image_width cfg)))%nat.
Proof.
  intros Hnum Hrun.
  destruct (fresh_run_inv cfg recs bm log Hnum Hrun) as (p & Hp & _ & Hlog & _).
  exists p. pose proof (worker_pool_bands _ recs _ _ p Hnum Hp) as Hbands.
  assert (Hlen : length p = Z.to_nat (thread_count cfg)).
  { rewrite <- (Forall2_length _ _ _ Hbands). apply length_seqZ. }
  assert (Hall : Forall (λ ws, length ws
                     = (Z.to_nat (image_height cfg ÷ thread_count cfg)
                        * Z.to_nat (image_width cfg))%nat) p).
  { apply Forall_forall. intros ws [k Hk]%list_elem_of_lookup.
    destruct (Forall2_lookup_r _ _ _ _ _ Hbands Hk) as (t & _ & Hcells).
    rewrite <- (length_fmap fst ws), Hcells, length_cells.
    do 2 f_equal. lia. }
  split_and!; [done..|].
  rewrite Hlog, <- Hlen. clear -Hall.
  induction Hall as [|ws p Hws _ IH]; [done|].
  simpl. rewrite length_app, Hws, IH. lia.
Qed.

(** After a run of numbered threads every rendered cell [(i, j)] holds the
    colour that [iterations_at_point] returns at
    [x = xmin + i*(xmax - xmin)/width], [y = ymin + j*(ymax - ymin)/height],
    with [height = image_height / threads] and the bounds and the cap of the
    record of the thread whose band holds row [j], thread [j / height + 1]. *)
Lemma rendered_pixel cfg recs (bm : bitmap) (log : list write) (i j : Z) :
  1 ≤ thread_count cfg → 0 ≤ image_height cfg →
  numbered (thread_count cfg) recs →
  threads_run recs (fresh_bitmap cfg) bm log →
  0 ≤ i < image_width cfg →
  0 ≤ j < image_height cfg ÷ thread_count cfg * thread_count cfg →
  ∃ a m c,
    a ∈ recs
    ∧ tnumber a = j ÷ (image_height cfg ÷ thread_count cfg) + 1
    ∧ d_to_int (max a) = Value m
    ∧ iterations_at_point
        (xmin a + d_of_int i * (xmax a - xmin a) / d_of_int (image_width cfg))%dbl
        (ymin a + d_of_int j * (ymax a - ymin a)
                  / d_of_int (image_height cfg ÷ thread_count cfg))%dbl
        m = Value c
    ∧ bitmap_get bm i j = Some c.
Proof.
  intros Hn Hh Hnum Hrun Hi Hj.
  destruct (fresh_run_inv cfg recs bm log Hnum Hrun) as (p & Hp & -> & Hlog & Hnd).
  assert (Hcell : (i, j) ∈ (mjoin p).*1) by by apply (worker_pool_rows (thread_count cfg) recs (image_width cfg) (image_height cfg) p i j).
  apply list_elem_of_fmap in Hcell as ([c' c] & Hc' & Hw). simpl in Hc'. subst c'.
  pose proof Hw as (ws & Hws & [k Hk]%list_elem_of_lookup)%list_elem_of_join.
  pose proof (worker_pool_numbered _ recs _ _ p Hnum Hp) as Hall.
  destruct (Forall2_lookup_r _ _ _ _ _ Hall Hk) as (t & _ & a & Ha & Hthreads & Ht & Hwrites).
  apply compute_image_writes_inv in Hwrites as (b & Hb & Hcells & Hcol).
  apply band_of_inv in Hb as (_ & Hheight & Hstart & Hstop).
  rewrite Hthreads in Hheight.
  assert (Hrow : band_start b ≤ j < band_stop b).
  { assert (Hin : (i, j) ∈ ws.*1).
    { apply list_elem_of_fmap. by exists ((i, j), c). }
    rewrite Hcells in Hin. by apply elem_of_cells in Hin as [_ ?]. }
  rewrite Forall_forall in Hcol. specialize (Hcol _ Hws). simpl in Hcol.
  rewrite Hheight in Hcol. unfold pixel_color in Hcol.
  apply bind_value in Hcol as (m & Hm & Hc).
  exists a, m, c. split_and!; [done| |done|done|].
  - rewrite Hstop, Hstart, Hheight in Hrow.
    set (h := image_height cfg ÷ thread_count cfg) in *.
    assert (Hhpos : 0 < h) by nia.
    rewrite Z.quot_div_nonneg by lia.
    assert (j `div` h = tnumber a - 1); [|lia].
    symmetry. apply (Z.div_unique j h (tnumber a - 1) (j - h * (tnumber a - 1))); lia.
  - apply bitmap_get_foldl_written; [|done]. by rewrite <- Hlog.
Qed.
(** With three threads and an image of ten rows, every run of numbered
    threads writes the cells of rows 0 to 8 and no cell of row 9: one row,
    [10 - 3*3 = 1], the last, is never rendered, and after the run the cells
    of the image that still hold the colour of [bitmap_reset] are exactly
    those of row 9. *)
Lemma last_row_unrendered cfg recs (bm : bitmap) (log : list write) :
  thread_count cfg = 3 → image_height cfg = 10 →
  numbered (thread_count cfg) recs →
  threads_run recs (fresh_bitmap cfg) bm log →
  image_height cfg - thread_count cfg * (image_height cfg ÷ thread_count cfg) = 1
  ∧ (∀ i j, (i, j) ∈ log.*1 ↔ 0 ≤ i < image_width cfg ∧ 0 ≤ j < 9)
  ∧ (∀ i, 0 ≤ i < image_width cfg → bitmap_get bm i 9 = Some sentinel)
  ∧ (∀ i j, 0 ≤ i < image_width cfg → 0 ≤ j < image_height cfg →
       bitmap_get bm i j = Some sentinel ↔ j = 9).
Proof.
  intros Hn Hh Hnum Hrun.
  destruct (fresh_run_inv cfg recs bm log Hnum Hrun) as (p & Hp & -> & Hlog & Hnd).
  assert (Hrows : ∀ i j, (i, j) ∈ (mjoin p).*1 ↔ 0 ≤ i < image_width cfg ∧ 0 ≤ j < 9).
  { intros i j.
    rewrite (worker_pool_rows (thread_count cfg) recs (image_width cfg)
               (image_height cfg) p i j) by (done || lia).
    rewrite Hn, Hh. done. }
  assert (Hlast : ∀ i, 0 ≤ i < image_width cfg →
    bitmap_get (foldl bitmap_write (fresh_bitmap cfg) (mjoin p)) i 9 = Some sentinel).
  { intros i Hi. rewrite bitmap_get_foldl_other.
    - apply bitmap_get_reset; simpl; lia.
    - rewrite Hrows. lia. }
  split_and!.
  - rewrite Hn, Hh. done.
  - intros i j. by rewrite Hlog.
  - done.
  - intros i j Hi Hj. split; [|by intros ->; apply Hlast].
    intros Hget. destruct (decide (j = 9)) as [|Hne]; [done|exfalso].
    assert (Hin : (i, j) ∈ (mjoin p).*1) by (apply Hrows; lia).
    apply list_elem_of_fmap in Hin as ([c' col] & Hc' & Hw).
    simpl in Hc'. subst c'.
    rewrite (bitmap_get_foldl_written _ _ i j col) in Hget.
    + injection Hget as ->.
      by apply (worker_pool_colors recs _ _ p _ Hp Hw).
    + by rewrite <- Hlog.
    + done.
Qed.
End ThreadEdges.

Lemma unrendered_rows_witness :
  1 ≤ thread_count cfg_3_10 ∧ 0 ≤ image_height cfg_3_10
  ∧ numbered (thread_count cfg_3_10) (assigned_args cfg_3_10)
  ∧ threads_run (assigned_args cfg_3_10) (fresh_bitmap cfg_3_10)
      (run_on cfg_3_10 (taking_turns 3 6)).1.2 (run_on cfg_3_10 (taking_turns 3 6)).2
  ∧ image_height cfg_3_10 ÷ thread_count cfg_3_10 * thread_count cfg_3_10
    = image_height cfg_3_10 - image_height cfg_3_10 `mod` thread_count cfg_3_10.
Proof.
  assert (Hn : 1 ≤ thread_count cfg_3_10) by (vm_compute; discriminate).
  assert (Hh : 0 ≤ image_height cfg_3_10) by (vm_compute; discriminate).
  split; [exact Hn|]. split; [exact Hh|].
  split; [exact (assigned_args_numbered cfg_3_10)|].
  split; [exact cfg_3_10_taking_turns|].
  exact (proj2 (unrendered_rows cfg_3_10 _ _ _ Hn Hh
                  (assigned_args_numbered cfg_3_10) cfg_3_10_taking_turns)).
Defined.

Lemma more_threads_than_rows_witness :
  0 ≤ image_height cfg_4_3 < thread_count cfg_4_3
  ∧ numbered (thread_count cfg_4_3) (assigned_args cfg_4_3)
  ∧ threads_run (assigned_args cfg_4_3) (fresh_bitmap cfg_4_3)
      (run_on cfg_4_3 []).1.2 (run_on cfg_4_3 []).2
  ∧ Forall (λ a, band_of a (image_height cfg_4_3) = Value (Band 0 0 0))
      (assigned_args cfg_4_3)
  ∧ (run_on cfg_4_3 []).2 = [] ∧ (run_on cfg_4_3 []).1.2 = fresh_bitmap cfg_4_3.
Proof.
  assert (Hh : 0 ≤ image_height cfg_4_3 < thread_count cfg_4_3)
    by (vm_compute; split; [discriminate|reflexivity]).
  assert (Hrun : threads_run (assigned_args cfg_4_3) (fresh_bitmap cfg_4_3)
                   (run_on cfg_4_3 []).1.2 (run_on cfg_4_3 []).2)
    by (apply run_on_runs; vm_compute; reflexivity).
  split; [exact Hh|]. split; [exact (assigned_args_numbered cfg_4_3)|].
  split; [exact Hrun|].
  exact (more_threads_than_rows cfg_4_3 _ _ _ Hh
           (assigned_args_numbered cfg_4_3) Hrun).
Defined.

Lemma equal_work_witness :
  numbered (thread_count cfg_3_10) (assigned_args cfg_3_10)
  ∧ threads_run (assigned_args cfg_3_10) (fresh_bitmap cfg_3_10)
      (run_on cfg_3_10 (taking_turns 3 6)).1.2 (run_on cfg_3_10 (taking_turns 3 6)).2
  ∧ ∃ p, worker_pool (assigned_args cfg_3_10)
           (image_width cfg_3_10) (image_height cfg_3_10) = Value p
       ∧ length p = Z.to_nat (thread_count cfg_3_10)
       ∧ Forall (λ ws, length ws
                       = (Z.to_nat (image_height cfg_3_10 ÷ thread_count cfg_3_10)
                          * Z.to_nat (image_width cfg_3_10))%nat) p
       ∧ length (run_on cfg_3_10 (taking_turns 3 6)).2
         = (Z.to_nat (thread_count cfg_3_10)
            * (Z.to_nat (image_height cfg_3_10 ÷ thread_count cfg_3_10)
               * Z.to_nat (image_width cfg_3_10)))%nat.
Proof.
  split; [exact (assigned_args_numbered cfg_3_10)|].
  split; [exact cfg_3_10_taking_turns|].
  exact (equal_work cfg_3_10 _ _ _ (assigned_args_numbered cfg_3_10)
           cfg_3_10_taking_turns).
Defined.

Lemma rendered_pixel_witness :
  1 ≤ thread_count cfg_2_4 ∧ 0 ≤ image_height cfg_2_4
  ∧ 0 ≤ 1 < image_width cfg_2_4
  ∧ 0 ≤ 3 < image_height cfg_2_4 ÷ thread_count cfg_2_4 * thread_count cfg_2_4
  ∧ ∃ a m c,
      a ∈ assigned_args cfg_2_4
      ∧ tnumber a = 3 ÷ (image_height cfg_2_4 ÷ thread_count cfg_2_4) + 1
      ∧ d_to_int (max a) = Value m
      ∧ iterations_at_point
          (xmin a + d_of_int 1 * (xmax a - xmin a)
                    / d_of_int (image_width cfg_2_4))%dbl
          (ymin a + d_of_int 3 * (ymax a - ymin a)
                    / d_of_int (image_height cfg_2_4 ÷ thread_count cfg_2_4))%dbl
          m = Value c
      ∧ bitmap_get (run_on cfg_2_4 (taking_turns 2 4)).1.2 1 3 = Some c.
Proof.
  assert (Hn : 1 ≤ thread_count cfg_2_4) by (vm_compute; discriminate).
  assert (Hh : 0 ≤ image_height cfg_2_4) by (vm_compute; discriminate).
  assert (Hi : 0 ≤ 1 < image_width cfg_2_4)
    by (vm_compute; split; [discriminate|reflexivity]).
  assert (Hj : 0 ≤ 3 < image_height cfg_2_4 ÷ thread_count cfg_2_4 * thread_count cfg_2_4)
    by (vm_compute; split; [discriminate|reflexivity]).
  split; [exact Hn|]. split; [exact Hh|]. split; [exact Hi|]. split; [exact Hj|].
  exact (rendered_pixel cfg_2_4 _ _ _ 1 3 Hn Hh
           (assigned_args_numbered cfg_2_4) cfg_2_4_taking_turns Hi Hj).
Defined.

Lemma last_row_unrendered_witness :
  thread_count cfg_3_10 = 3 ∧ image_height cfg_3_10 = 10
  ∧ numbered (thread_count cfg_3_10) (assigned_args cfg_3_10)
  ∧ threads_run (assigned_args cfg_3_10) (fresh_bitmap cfg_3_10)
      (run_on cfg_3_10 (taking_turns 3 6)).1.2 (run_on cfg_3_10 (taking_turns 3 6)).2
  ∧ (∀ i, 0 ≤ i < image_width cfg_3_10 →
        bitmap_get (run_on cfg_3_10 (taking_turns 3 6)).1.2 i 9 = Some sentinel).
Proof.
  split; [reflexivity|]. split; [reflexivity|].
  split; [exact (assigned_args_numbered cfg_3_10)|].
  split; [exact cfg_3_10_taking_turns|].
  exact (proj1 (proj2 (proj2 (last_row_unrendered cfg_3_10 _ _ _ eq_refl eq_refl
                                (assigned_args_numbered cfg_3_10)
                                cfg_3_10_taking_turns)))).
Defined.
(** ** The options *)

Lemma last_arg_cons (o : option_letter) (c : ascii) (a : string)
    (opts : list (ascii * string)) :
  last_arg o ((c, a) :: opts) =
    match last_arg o opts with
    | Some b => Some b
    | None => if decide (letter_of c = o) then Some a else None
    end.
Proof.
  unfold last_arg. destruct (decide (letter_of c = o)) as [Heq|Hne].
  - rewrite filter_cons_True by done. rewrite last_cons.
    by destruct (last (filter _ opts)).
  - rewrite filter_cons_False by done. by destruct (last (filter _ opts)).
Qed.

Section OptionFacts.
Context {D : Type} `{DoubleOps D}.
Variable atof : string → D.
Variable atoi : string → Z.

Lemma switch_cases (c : ascii) (a : string) (l : locals D) :
  (letter_of c = Opt_h ∧ switch atof atoi c a l = Exit 1)
  ∨ (letter_of c ≠ Opt_h ∧ ∃ l', switch atof atoi c a l = Continue l').
Proof.
  unfold switch. destruct (letter_of c); (by left) || (right; split; [done|by eexists]).
Qed.

(** [-h] ends the program with status 1 wherever it stands among the
    options, and nothing else does. *)
Lemma help_exits (opts : list (ascii * string)) (l : locals D) :
  (parse_options atof atoi opts l = Exit 1 ↔ Opt_h ∈ letter_of <$> opts.*1)
  ∧ (∀ status, parse_options atof atoi opts l = Exit status → status = 1).
Proof.
  revert l. induction opts as [|[c a] opts IH]; intros l.
  - split; [|done]. split; [done|]. by intros ?%not_elem_of_nil.
  - rewrite !fmap_cons, elem_of_cons. simpl.
    destruct (switch_cases c a l) as [[Hc ->]|[Hc [l' ->]]].
    + split; [|by intros ? [= <-]]. split; [by left|done].
    + destruct (IH l') as [IH1 IH2]. split; [|done].
      rewrite IH1. split; [by right|]. by intros [?|?].
Qed.

(** Without [-h], every variable ends with the argument of the last option
    that sets it, converted by [atof] or [atoi], or else with the value it
    had; what [getopt] answers with ['?'] changes nothing. *)
Lemma last_option_wins (opts : list (ascii * string)) (l : locals D) :
  Opt_h ∉ letter_of <$> opts.*1 →
  parse_options atof atoi opts l = Continue {|
    outfile := default (outfile l) (last_arg Opt_o opts);
    config := {|
      xcenter := default (xcenter (config l)) (atof <$> last_arg Opt_x opts);
      ycenter := default (ycenter (config l)) (atof <$> last_arg Opt_y opts);
      scale := default (scale (config l)) (atof <$> last_arg Opt_s opts);
      image_width := default (image_width (config l)) (atoi <$> last_arg Opt_W opts);
      image_height := default (image_height (config l)) (atoi <$> last_arg Opt_H opts);
      max_iterations := default (max_iterations (config l)) (atoi <$> last_arg Opt_m opts);
      thread_count := default (thread_count (config l)) (atoi <$> last_arg Opt_n opts)
    |}
  |}.
Proof.
  revert l. induction opts as [|[c a] opts IH]; intros l Hh.
  - by destruct l as [? []].
  - rewrite fmap_cons, fmap_cons, not_elem_of_cons in Hh. destruct Hh as [Hc Hh].
    simpl in Hc. simpl. unfold switch.
    destruct (letter_of c) eqn:Hl; [..|done|]; rewrite IH by done;
      rewrite !last_arg_cons, Hl;
      destruct (last_arg Opt_o opts), (last_arg Opt_x opts), (last_arg Opt_y opts),
        (last_arg Opt_s opts), (last_arg Opt_W opts), (last_arg Opt_H opts),
        (last_arg Opt_m opts), (last_arg Opt_n opts); reflexivity.
Qed.
End OptionFacts.

Lemma last_option_wins_witness :
  (Opt_h ∉ letter_of <$> sample_options.*1)
  ∧ parse_options length_atof length_atoi sample_options default_locals
    = Continue {|
        outfile := "mandel.bmp";
        config := {| xcenter := 1%float; ycenter := 0%float; scale := 4%float;
                     image_width := 2; image_height := 500;
                     max_iterations := 1000; thread_count := 4 |} |}.
Proof.
  assert (Hh : Opt_h ∉ letter_of <$> sample_options.*1)
    by (apply (bool_decide_eq_false_1 _); vm_compute; reflexivity).
  split; [exact Hh|].
  rewrite (last_option_wins length_atof length_atoi sample_options default_locals Hh).
  vm_compute. reflexivity.
Defined.

(** ** The gray scale *)

(** For a count [i >= 0] and a cap other than 0, [iteration_to_color] returns
    a colour exactly when [255 * i] is an int, that is when [i <= 8421504]. *)
Lemma color_defined_iff (i max : Z) :
  0 ≤ i → max ≠ 0 →
  is_value (iteration_to_color i max) = true ↔ i ≤ 8421504.
Proof.
  intros Hi Hmax. unfold iteration_to_color, int_mul, int_div.
  destruct (Z.le_gt_cases i 8421504) as [Hle|Hgt].
  - split; [done|]. intros _. int_value.
    destruct (Z.eqb_spec max 0); [done|].
    assert (Hpos : ∀ m, 0 < m → 0 ≤ 255 * i ÷ m ≤ 255 * i).
    { intros m Hm. rewrite Z.quot_div_nonneg by lia. split.
      - apply Z.div_pos; lia.
      - apply Z.div_le_upper_bound; [lia|nia]. }
    assert (Hq : - (255 * i) ≤ 255 * i ÷ max ≤ 255 * i).
    { destruct (Z.lt_ge_cases 0 max) as [Hm|Hm].
      - specialize (Hpos max Hm). lia.
      - specialize (Hpos (- max) ltac:(lia)).
        rewrite Z.quot_opp_r in Hpos by lia. lia. }
    rewrite int_result_value; [done|].
    unfold INT_MIN, INT_MAX. lia.
  - split; [|lia]. unfold int_result, in_int.
    destruct (Z.leb_spec (255 * i) INT_MAX) as [Hin|_].
    + unfold INT_MAX in Hin. lia.
    + by rewrite andb_false_r.
Qed.

(** A point that takes more passes is never darker: for counts
    [0 <= i1 <= i2 <= max] the gray of [i1] is at most the gray of [i2]. *)
Lemma gray_monotone (i1 i2 max : Z) :
  0 ≤ i1 ≤ i2 → i2 ≤ max → 0 < max ≤ 8421504 →
  ∃ g1 g2, iteration_to_color i1 max = Value (MAKE_RGBA g1 g1 g1 0)
         ∧ iteration_to_color i2 max = Value (MAKE_RGBA g2 g2 g2 0)
         ∧ 0 ≤ g1 ≤ g2 ∧ g2 ≤ 255.
Proof.
  intros Hi Hle Hmax.
  destruct (iteration_to_color_range i1 max) as (g1 & Hg1 & -> & Hr1); [lia..|].
  destruct (iteration_to_color_range i2 max) as (g2 & Hg2 & -> & Hr2); [lia..|].
  eexists _, _. split_and!; [done|done|lia| |lia].
  rewrite !Z.quot_div_nonneg by lia. apply Z.div_le_mono; lia.
Qed.

Lemma color_defined_iff_witness :
  0 ≤ 8421504 ∧ 8421504 ≠ 0
  ∧ (is_value (iteration_to_color 8421504 8421504) = true ↔ 8421504 ≤ 8421504).
Proof.
  assert (Hi : 0 ≤ 8421504) by lia. assert (Hmax : 8421504 ≠ 0) by lia.
  split; [exact Hi|]. split; [exact Hmax|].
  exact (color_defined_iff 8421504 8421504 Hi Hmax).
Defined.

Lemma gray_monotone_witness :
  0 ≤ 3 ≤ 7 ∧ 7 ≤ 20 ∧ 0 < 20 ≤ 8421504
  ∧ ∃ g1 g2, iteration_to_color 3 20 = Value (MAKE_RGBA g1 g1 g1 0)
           ∧ iteration_to_color 7 20 = Value (MAKE_RGBA g2 g2 g2 0)
           ∧ 0 ≤ g1 ≤ g2 ∧ g2 ≤ 255.
Proof.
  assert (Hi : 0 ≤ 3 ≤ 7) by lia. assert (Hle : 7 ≤ 20) by lia.
  assert (Hmax : 0 < 20 ≤ 8421504) by lia.
  split; [exact Hi|]. split; [exact Hle|]. split; [exact Hmax|].
  exact (gray_monotone 3 7 20 Hi Hle Hmax).
Defined.
